(** * awscreds: background refresh and swap of AWS credentials

    A shallow embedding of the Go package [awscreds] (the [Swapper] with its
    atomic cache cell, the [Refresher], and the [Config] options) together
    with the properties of its specification.

    Go code with effects is written in a small state-and-panic monad [M]:
    the state holds the outside world the credential factory and the SDK's
    [Get] talk to, the store of [atomic.Value] cells, the history of the
    external fetches performed, and the history of [Log] calls. *)

From Stdlib Require Import ZArith.
From stdpp Require Import base option list gmap strings.

Set Default Proof Using "Type".

(** ** Values of the Go program *)

(** Go's [error] values. [fmt.Errorf] without a verb builds a leaf, with
    [%w] it wraps its argument; an error produced outside the package (by
    the credential factory or by the SDK) is an [ErrExternal] with its
    text. *)
Inductive error : Type :=
| ErrExternal (text : string)
| Errorf (msg : string)
| ErrorfW (msg : string) (inner : error).

(** [errors.Unwrap] *)
Definition Unwrap (e : error) : option error :=
  match e with
  | ErrorfW _ inner => Some inner
  | _ => None
  end.

(** The text of an error, as its [Error()] method gives it. *)
Fixpoint Error (e : error) : string :=
  match e with
  | ErrExternal text => text
  | Errorf msg => msg
  | ErrorfW msg inner => msg +:+ ": " +:+ Error inner
  end.

(** A pointer to [credentials.Credentials]: [None] is the nil pointer,
    [Some a] points to the credentials object at address [a]. *)
Definition addr := nat.
Definition CredsPtr := option addr.

(** What an [interface{}] held by the cache can be: a (possibly nil)
    pointer to [credentials.Credentials], or a value of some other dynamic
    type. *)
Inductive any : Type :=
| AnyCreds (p : CredsPtr)
| AnyOther (dyntype : nat).

(** [log.Logger], an interface: its nil value (the logger of a zero-value
    [Config], and what [WithLogger(nil)] sets), the no-op logger of go-kit
    that both constructors start from, or a sink of the caller. *)
Inductive Logger : Type :=
| NilLogger
| NopLogger
| SinkLogger (id : nat).

Global Instance Logger_eq_dec : EqDecision Logger.
Proof. solve_decision. Defined.

(** An argument of [Log(keyvals ...interface{})]. *)
Inductive keyval : Type :=
| KVStr (s : string)
| KVErr (e : error).

(** One call of [Log]: the logger it was made on and its arguments. *)
Definition LogEntry : Type := Logger * list keyval.

(** An external fetch: an invocation of the credential factory with what it
    returned, or a [Get] on the credentials object at [a] with its error. *)
Inductive Call : Type :=
| CallNewCreds (p : CredsPtr) (e : option error)
| CallGet (a : addr) (e : option error).

(** Why a Go program panics here. *)
Inductive PanicReason : Type :=
| NilDereference
| NilFuncCall
| StoreInconsistentType.

(** [time.Duration] is a count of nanoseconds. *)
Definition Duration := Z.
Definition Minute : Duration := (60 * 1000000000)%Z.

(** ** Configuration (options plumbing) *)

Record Config : Type := mkConfig {
  logger : Logger;
  period : Duration
}.

(** [Option]: a function that sets up a [Config] in place. *)
Definition Option : Type := Config → Config.

Definition WithLogger (l : Logger) : Option :=
  fun c => {| logger := l; period := period c |}.

Definition WithPeriod (p : Duration) : Option :=
  fun c => {| logger := logger c; period := p |}.

(** The [Config] literal both constructors start from. *)
Definition defaultConfig : Config :=
  {| logger := NopLogger; period := (55 * Minute)%Z |}.

(** [for _, opt := range opts { opt(&conf) }] *)
Definition applyOptions (opts : list Option) (c : Config) : Config :=
  foldl (fun c opt => opt c) c opts.

(** ** The outside world *)

(** The SDK is not part of the package: the state of everything the
    credential factory and [Credentials.Get] depend on is [World], and
    [sdk_Get a] is [Get] on the (non-nil) credentials object at [a]. The
    [Value] that [Get] also returns is dropped at both call sites, so only
    its error is kept. *)
Class SDK : Type := {
  World : Type;
  sdk_Get : addr → World → option error * World
}.

Section Program.
Context `{SDK}.

(** [NewCreds]: a function of no argument that returns a credentials
    pointer and an error. *)
Definition NewCreds : Type := World → (CredsPtr * option error) * World.

(** ** Program state and the monad *)

Record St : Type := mkSt {
  world : World;
  cells : gmap nat any;   (* the atomic.Value cells; no entry: nothing stored *)
  next : nat;             (* next free cell *)
  calls : list Call;      (* external fetches done so far *)
  logged : list LogEntry  (* Log calls done so far *)
}.

Inductive Res (A : Type) : Type :=
| Ret (a : A) (st : St)
| Panic (why : PanicReason).
Global Arguments Ret {A} a st.
Global Arguments Panic {A} why.

Definition M (A : Type) : Type := St → Res A.

Global Instance M_ret : MRet M := fun A a st => Ret a st.
Global Instance M_bind : MBind M := fun A B f m st =>
  match m st with
  | Ret a st' => f a st'
  | Panic why => Panic why
  end.

Definition panic {A} (why : PanicReason) : M A := fun _ => Panic why.

(** ** [sync/atomic.Value] *)

(** [var v atomic.Value]: a zeroed cell. *)
Definition newValue : M nat := fun st =>
  Ret (next st)
      {| world := world st; cells := delete (next st) (cells st);
         next := S (next st); calls := calls st; logged := logged st |}.

(** [v.Load()]: nil ([None]) when nothing was stored. *)
Definition Load (c : nat) : M (option any) := fun st => Ret (cells st !! c) st.

Definition same_dyntype (v w : any) : bool :=
  match v, w with
  | AnyCreds _, AnyCreds _ => true
  | AnyOther t, AnyOther u => Nat.eqb t u
  | _, _ => false
  end.

(** [v.Store(x)]: panics when a value of another dynamic type is held. *)
Definition Store (c : nat) (x : any) : M unit := fun st =>
  match cells st !! c with
  | Some old =>
      if same_dyntype old x
      then Ret tt {| world := world st; cells := <[c := x]> (cells st);
                     next := next st; calls := calls st; logged := logged st |}
      else Panic StoreInconsistentType
  | None =>
      Ret tt {| world := world st; cells := <[c := x]> (cells st);
                next := next st; calls := calls st; logged := logged st |}
  end.

(** ** External calls *)

(** [logger.Log(keyvals...)]: a method call on an interface value, which
    panics when the interface is nil; the error that [Log] returns is
    dropped by the code. *)
Definition Log (l : Logger) (keyvals : list keyval) : M unit :=
  match l with
  | NilLogger => panic NilDereference
  | _ => fun st =>
      Ret tt {| world := world st; cells := cells st; next := next st;
                calls := calls st; logged := logged st ++ [(l, keyvals)] |}
  end.

(** Calling a value of type [NewCreds]; a nil func panics. *)
Definition callNewCreds (f : option NewCreds) : M (CredsPtr * option error) :=
  match f with
  | None => panic NilFuncCall
  | Some f => fun st =>
      let '(r, w) := f (world st) in
      Ret r {| world := w; cells := cells st; next := next st;
               calls := calls st ++ [CallNewCreds r.1 r.2]; logged := logged st |}
  end.

(** [creds.Get()]: on a nil pointer the method dereferences its receiver. *)
Definition Get (creds : CredsPtr) : M (option error) :=
  match creds with
  | None => panic NilDereference
  | Some a => fun st =>
      let '(e, w) := sdk_Get a (world st) in
      Ret e {| world := w; cells := cells st; next := next st;
               calls := calls st ++ [CallGet a e]; logged := logged st |}
  end.

(** ** Swapper *)

Record Swapper : Type := mkSwapper {
  conf : Config;
  newcreds : option NewCreds;
  cache : nat   (* the atomic.Value of this Swapper *)
}.

Definition Swapper_refresh (s : Swapper) : M (option error) :=
  '(creds, err) ← callNewCreds (newcreds s);
  match err with
  | Some err => mret (Some (ErrorfW "failed to create new credentials" err))
  | None =>
      err ← Get creds;
      match err with
      | Some err => mret (Some (ErrorfW "failed to retrieve credentials value" err))
      | None =>
          Store (cache s) (AnyCreds creds);;
          mret None
      end
  end.

Definition NewSwapper (newcreds : option NewCreds) (opts : list Option)
  : M (option Swapper * option error) :=
  match newcreds with
  | None => mret (None, Some (Errorf "newcreds cannot be nil"))
  | Some _ =>
      c ← newValue;
      let s := {| conf := applyOptions opts defaultConfig;
                  newcreds := newcreds;
                  cache := c |} in
      err ← Swapper_refresh s;
      match err with
      | Some err => mret (None, Some err)
      | None => mret (Some s, None)
      end
  end.

(** Which case of the loop's [select] is taken at an iteration. *)
Inductive SelectCase : Type :=
| CtxDone
| TimerFired.

(** [Run] has no result; what is observed of it after the given [select]
    outcomes is whether it has returned or is waiting in [select] again. *)
Inductive RunStatus : Type :=
| Returned
| Waiting.

Fixpoint Swapper_Run (s : Swapper) (evs : list SelectCase) : M RunStatus :=
  match evs with
  | [] => mret Waiting
  | CtxDone :: _ => mret Returned
  | TimerFired :: evs =>
      err ← Swapper_refresh s;
      match err with
      | Some err =>
          Log (logger (conf s))
              [KVStr "msg"; KVStr "failed to refresh aws credentials";
               KVStr "err"; KVErr err]
      | None => mret tt
      end;;
      Swapper_Run s evs
  end.

(** ** The signing pipeline of a client *)

(** [v4.Signer], with the one field the package writes and one it leaves. *)
Record Signer : Type := mkSigner {
  Credentials : CredsPtr;
  DisableURIPathEscaping : bool
}.

(** A function that tunes a [v4.Signer] in place. *)
Definition SignerOption : Type := Signer → M Signer.

Record Request : Type := mkRequest {
  Config_Credentials : CredsPtr
}.

Record NamedHandler : Type := mkNamedHandler {
  Name : string;
  Fn : Request → M Signer
}.

Record Client : Type := mkClient {
  Handlers_Sign : list NamedHandler
}.

(** Modelled from the spec: the SDK's [v4.NewSigner], missing from the
    sources. A signer is materialized for a request from the request's own
    credentials, and the signing options are run on it in order. *)
Definition NewSigner (credentials : CredsPtr) (options : list SignerOption) : M Signer :=
  foldl (fun (m : M Signer) (option : SignerOption) => signer ← m; option signer)
        (mret {| Credentials := credentials; DisableURIPathEscaping := false |})
        options.

(** Modelled from the spec: the SDK's [v4.BuildNamedHandler], missing from
    the sources. The handler of the given name materializes the signer of a
    request with the given signing options. *)
Definition BuildNamedHandler (name : string) (opts : list SignerOption) : NamedHandler :=
  {| Name := name;
     Fn := fun req => NewSigner (Config_Credentials req) opts |}.

(** Modelled from the spec: the SDK's [HandlerList.SwapNamed], missing from
    the sources. The step of the pipeline that has the name of [n] gets the
    function of [n]; the result tells whether such a step existed. *)
Fixpoint SwapNamed (l : list NamedHandler) (n : NamedHandler)
  : bool * list NamedHandler :=
  match l with
  | [] => (false, [])
  | h :: l =>
      let '(swapped, l') := SwapNamed l n in
      if String.eqb (Name h) (Name n)
      then (true, {| Name := Name h; Fn := Fn n |} :: l')
      else (swapped, h :: l')
  end.

(** The signer option that [Attach] appends. *)
Definition swapOption (s : Swapper) : SignerOption := fun signer =>
  v ← Load (cache s);
  let '(creds, ok) :=
    match v with
    | Some (AnyCreds p) => (p, true)
    | _ => (None, false)
    end in
  if bool_decide (creds ≠ None) && ok
  then mret {| Credentials := creds;
               DisableURIPathEscaping := DisableURIPathEscaping signer |}
  else
    Log (logger (conf s)) [KVStr "msg"; KVStr "failed to swap aws credentials"];;
    mret signer.

Section Attach.
(** [v4.SignRequestHandler.Name], a constant of the SDK. *)
Variable SignRequestHandler_Name : string.

Definition Swapper_Attach (s : Swapper) (c : Client) (opts : list SignerOption)
  : M (bool * Client) :=
  let opts := opts ++ [swapOption s] in
  let '(swapped, l) :=
    SwapNamed (Handlers_Sign c) (BuildNamedHandler SignRequestHandler_Name opts) in
  mret (swapped, {| Handlers_Sign := l |}).
End Attach.

(** ** Refresher *)

Record Refresher : Type := mkRefresher {
  r_conf : Config;
  r_creds : CredsPtr
}.

Definition NewRefresher (creds : CredsPtr) (opts : list Option)
  : M (option Refresher * option error) :=
  match creds with
  | None => mret (None, Some (Errorf "creds cannot be nil"))
  | Some _ =>
      let r := {| r_conf := applyOptions opts defaultConfig; r_creds := creds |} in
      err ← Get creds;
      match err with
      | Some err => mret (None, Some (ErrorfW "failed to retrieve credentials value" err))
      | None => mret (Some r, None)
      end
  end.

Fixpoint Refresher_Run (r : Refresher) (evs : list SelectCase) : M RunStatus :=
  match evs with
  | [] => mret Waiting
  | CtxDone :: _ => mret Returned
  | TimerFired :: evs =>
      err ← Get (r_creds r);
      match err with
      | Some err =>
          Log (logger (r_conf r))
              [KVStr "msg"; KVStr "failed to refresh aws credentials";
               KVStr "err"; KVErr err]
      | None => mret tt
      end;;
      Refresher_Run r evs
  end.

(** [var s Swapper]: the zero value of the exported type, which a caller
    can make without [NewSwapper]: nil logger, zero period, nil factory,
    and a cache in which nothing is stored. *)
Definition zero_Swapper : M Swapper :=
  c ← newValue;
  mret {| conf := {| logger := NilLogger; period := 0%Z |};
          newcreds := None;
          cache := c |}.

(** ** Predicates on the cache and the life of a Swapper *)

(** No value of a type other than the credentials pointer is in cell [c]. *)
Definition storable (st : St) (c : nat) : Prop :=
  ∀ t, cells st !! c ≠ Some (AnyOther t).

(** The cache of [s] holds a non-nil credentials pointer. *)
Definition holds_creds (s : Swapper) (st : St) : Prop :=
  ∃ a, cells st !! cache s = Some (AnyCreds (Some a)).

(** The signing hook finds nothing to use in the cache of [s]: the cell is
    empty, or holds a value of another type, or a nil credentials pointer. *)
Definition cache_miss (s : Swapper) (st : St) : Prop :=
  cells st !! cache s = None
  ∨ (∃ t, cells st !! cache s = Some (AnyOther t))
  ∨ cells st !! cache s = Some (AnyCreds None).

(** What a program does with the Swapper it got from [NewSwapper]: the
    package's own [refresh], [Run] (seen through the [select] cases of its
    iterations), [Attach], and a signing on an attached client, which calls
    the signer option that [Attach] installed. *)
Inductive SwapperOp : Type :=
| OpRefresh
| OpRun (evs : list SelectCase)
| OpAttach (name : string) (c : Client) (opts : list SignerOption)
| OpSign (signer : Signer).

Definition exec_op (s : Swapper) (op : SwapperOp) : M unit :=
  match op with
  | OpRefresh => Swapper_refresh s;; mret tt
  | OpRun evs => Swapper_Run s evs;; mret tt
  | OpAttach name c opts => Swapper_Attach name s c opts;; mret tt
  | OpSign signer => swapOption s signer;; mret tt
  end.

Fixpoint exec_ops (s : Swapper) (ops : list SwapperOp) : M unit :=
  match ops with
  | [] => mret tt
  | op :: ops => exec_op s op;; exec_ops s ops
  end.

(** ** Measures on options, select cases and histories *)

(** An option as a caller writes it with one of the two constructors. *)
Inductive OptionSpec : Type :=
| SetLogger (l : Logger)
| SetPeriod (p : Duration).

Definition toOption (o : OptionSpec) : Option :=
  match o with
  | SetLogger l => WithLogger l
  | SetPeriod p => WithPeriod p
  end.

Definition loggerOf (o : OptionSpec) : option Logger :=
  match o with SetLogger l => Some l | SetPeriod _ => None end.

Definition periodOf (o : OptionSpec) : option Duration :=
  match o with SetPeriod p => Some p | SetLogger _ => None end.

(** The timer cases taken before the first cancellation. *)
Fixpoint ticks_before_done (evs : list SelectCase) : nat :=
  match evs with
  | [] => 0
  | CtxDone :: _ => 0
  | TimerFired :: evs => S (ticks_before_done evs)
  end.

Definition isNewCreds (c : Call) : bool :=
  match c with CallNewCreds _ _ => true | CallGet _ _ => false end.

(** A fetch that came back with an error. *)
Definition isFailure (c : Call) : bool :=
  match c with
  | CallNewCreds _ (Some _) | CallGet _ (Some _) => true
  | _ => false
  end.

Definition countCalls (f : Call → bool) (l : list Call) : nat :=
  length (List.filter f l).

(** The credentials object of the latest [Get] that succeeded, if any. *)
Fixpoint lastValidated (l : list Call) : option addr :=
  match l with
  | [] => None
  | c :: l =>
      match lastValidated l with
      | Some a => Some a
      | None => match c with CallGet a None => Some a | _ => None end
      end
  end.

(** The [Log] call that both loops make for a failed refresh. *)
Definition refreshLog (l : Logger) (err : error) : LogEntry :=
  (l, [KVStr "msg"; KVStr "failed to refresh aws credentials";
       KVStr "err"; KVErr err]).

(** What [Swapper.Run] logs for a fetch: nothing for one that succeeded, the
    wrapped error for one that failed. *)
Definition swapperLogOf (l : Logger) (c : Call) : option LogEntry :=
  match c with
  | CallNewCreds _ (Some e) =>
      Some (refreshLog l (ErrorfW "failed to create new credentials" e))
  | CallGet _ (Some e) =>
      Some (refreshLog l (ErrorfW "failed to retrieve credentials value" e))
  | _ => None
  end.

(** What [Refresher.Run] logs for a [Get]: the error as [Get] gave it. *)
Definition refresherLogOf (l : Logger) (c : Call) : option LogEntry :=
  match c with
  | CallGet _ (Some e) => Some (refreshLog l e)
  | _ => None
  end.

(** The [Log] call of a signing hook that misses the cache. *)
Definition swapLog (l : Logger) : LogEntry :=
  (l, [KVStr "msg"; KVStr "failed to swap aws credentials"]).

End Program.

(** ** A concrete world, for examples

    The world is a clock that every external call advances. The credentials
    objects at addresses below 100 are usable; [Get] on the others fails
    with an expired token. *)
Definition demo_SDK : SDK :=
  {| World := nat;
     sdk_Get := fun a w =>
       (if a <? 100 then None else Some (ErrExternal "ExpiredToken"), S w) |}.

(** A world in which every credentials object expires: [Get] succeeds
    until the clock reaches 3 and fails from then on. *)
Definition aging_SDK : SDK :=
  {| World := nat;
     sdk_Get := fun a w =>
       (if w <? 3 then None else Some (ErrExternal "ExpiredToken"), S w) |}.

(** A factory that makes a fresh usable credentials object at each call. *)
Definition demo_good : @NewCreds demo_SDK :=
  fun w => ((Some w, None), S w).

(** A factory that always fails. *)
Definition demo_bad : @NewCreds demo_SDK :=
  fun w => ((None, Some (ErrExternal "NoCredentialProviders")), S w).

(** A factory whose credentials objects do not validate. *)
Definition demo_expired : @NewCreds demo_SDK :=
  fun w => ((Some (100 + w), None), S w).

(** A factory that works until the clock reaches 4 and fails from then on. *)
Definition demo_flaky : @NewCreds demo_SDK :=
  fun w => if w <? 4 then ((Some w, None), S w)
           else ((None, Some (ErrExternal "RequestError")), S w).

(** A factory that returns a nil pointer and a nil error. *)
Definition demo_nil : @NewCreds demo_SDK :=
  fun w => ((None, None), S w).

(** The state before anything has run. *)
Definition demo_st0 : @St demo_SDK :=
  @mkSt demo_SDK 0 ∅ 0 [] [].

(** A state in which cell 0 holds the credentials object at 7. *)
Definition demo_st7 : @St demo_SDK :=
  @mkSt demo_SDK 0 {[ 0 := AnyCreds (Some 7) ]} 1 [] [].

(** A state in which cell 0 holds a value that is not a credentials pointer. *)
Definition demo_stOther : @St demo_SDK :=
  @mkSt demo_SDK 0 {[ 0 := AnyOther 1 ]} 1 [] [].

(** The Swapper that [NewSwapper] builds on [demo_st0] with the logger 1. *)
Definition demo_swapper (f : @NewCreds demo_SDK) : @Swapper demo_SDK :=
  @mkSwapper demo_SDK (WithLogger (SinkLogger 1) defaultConfig) (Some f) 0.

Definition demo_refresher : Refresher :=
  {| r_conf := WithPeriod (5 * Minute)%Z (WithLogger (SinkLogger 2) defaultConfig);
     r_creds := Some 100 |}.

Definition demo_signer : Signer :=
  {| Credentials := Some 42; DisableURIPathEscaping := true |}.

Definition demo_client : @Client demo_SDK :=
  @mkClient demo_SDK
    [ BuildNamedHandler "core.BuildContentLengthHandler" [];
      BuildNamedHandler "v4.SignRequestHandler" [] ].

Definition demo_client_nosign : @Client demo_SDK :=
  @mkClient demo_SDK [ BuildNamedHandler "core.BuildContentLengthHandler" [] ].

(** ** Runs on the concrete world *)

Example demo_defaultConfig :
  period defaultConfig = 3300000000000%Z ∧ logger defaultConfig = NopLogger.
Proof. done. Qed.

Example demo_options :
  applyOptions [WithPeriod 7%Z; WithLogger (SinkLogger 3); WithPeriod 9%Z]
               defaultConfig
  = {| logger := SinkLogger 3; period := 9%Z |}.
Proof. reflexivity. Qed.

Example demo_NewSwapper_good :
  NewSwapper (Some demo_good) [WithLogger (SinkLogger 1)] demo_st0
  = Ret (Some (demo_swapper demo_good), None)
        (@mkSt demo_SDK 2 {[ 0 := AnyCreds (Some 0) ]} 1
           [CallNewCreds (Some 0) None; CallGet 0 None] []).
Proof. reflexivity. Qed.

Example demo_NewSwapper_bad :
  NewSwapper (Some demo_bad) [] demo_st0
  = Ret (None, Some (ErrorfW "failed to create new credentials"
                             (ErrExternal "NoCredentialProviders")))
        (@mkSt demo_SDK 1 ∅ 1
           [CallNewCreds None (Some (ErrExternal "NoCredentialProviders"))] []).
Proof. reflexivity. Qed.

Example demo_NewSwapper_error_text :
  Error (ErrorfW "failed to create new credentials"
                 (ErrExternal "NoCredentialProviders"))
  = "failed to create new credentials: NoCredentialProviders".
Proof. reflexivity. Qed.

(** A nil pointer with a nil error from the factory: [Get] panics. *)
Example demo_NewSwapper_nil :
  NewSwapper (Some demo_nil) [] demo_st0 = Panic NilDereference.
Proof. reflexivity. Qed.

(** A store of credentials into a cell that holds another type panics. *)
Example demo_refresh_other_type :
  Swapper_refresh (demo_swapper demo_good) demo_stOther
  = Panic StoreInconsistentType.
Proof. reflexivity. Qed.

(** Construction, a tick that refreshes, a tick that fails, cancellation. *)
Example demo_Run_flaky :
  (s ← NewSwapper (Some demo_flaky) [WithLogger (SinkLogger 1)];
   match s.1 with
   | Some s => Swapper_Run s [TimerFired; TimerFired; CtxDone; TimerFired]
   | None => mret Waiting
   end) demo_st0
  = Ret Returned
        (@mkSt demo_SDK 5 {[ 0 := AnyCreds (Some 2) ]} 1
           [CallNewCreds (Some 0) None; CallGet 0 None;
            CallNewCreds (Some 2) None; CallGet 2 None;
            CallNewCreds None (Some (ErrExternal "RequestError"))]
           [(SinkLogger 1,
             [KVStr "msg"; KVStr "failed to refresh aws credentials";
              KVStr "err";
              KVErr (ErrorfW "failed to create new credentials"
                             (ErrExternal "RequestError"))])]).
Proof. reflexivity. Qed.

(** A Refresher on expired credentials: each tick logs the error of [Get]. *)
Example demo_Refresher_Run :
  Refresher_Run demo_refresher [TimerFired; CtxDone] demo_st0
  = Ret Returned
        (@mkSt demo_SDK 1 ∅ 0 [CallGet 100 (Some (ErrExternal "ExpiredToken"))]
           [(SinkLogger 2,
             [KVStr "msg"; KVStr "failed to refresh aws credentials";
              KVStr "err"; KVErr (ErrExternal "ExpiredToken")])]).
Proof. reflexivity. Qed.

(** A request signed through an attached client uses the cached credentials
    in place of its own. *)
Example demo_attached_signing :
  (r ← Swapper_Attach "v4.SignRequestHandler" (demo_swapper demo_good)
         demo_client [];
   match Handlers_Sign r.2 !! 1 with
   | Some h => Fn h {| Config_Credentials := Some 42 |}
   | None => mret demo_signer
   end) demo_st7
  = Ret {| Credentials := Some 7; DisableURIPathEscaping := false |} demo_st7.
Proof. reflexivity. Qed.

(** ** Properties *)

Section Properties.
Context `{SDK}.

Implicit Types (s : Swapper) (r : Refresher) (st : St) (F : NewCreds)
  (a : addr) (p : CredsPtr) (e : error) (evs : list SelectCase).

(** Unfolds the monad at the head of a goal or hypothesis. *)
Ltac unfold_M :=
  unfold mbind, mret, M_bind, M_ret, panic in *; simpl in *.

(** *** What one external call does *)

Lemma callNewCreds_eq F st :
  callNewCreds (Some F) st
  = Ret (F (world st)).1
        {| world := (F (world st)).2; cells := cells st; next := next st;
           calls := calls st ++ [CallNewCreds (F (world st)).1.1 (F (world st)).1.2];
           logged := logged st |}.
Proof. unfold callNewCreds. by destruct (F (world st)) as [[p e] w]. Qed.

Lemma Get_eq a st :
  Get (Some a) st
  = Ret (sdk_Get a (world st)).1
        {| world := (sdk_Get a (world st)).2; cells := cells st; next := next st;
           calls := calls st ++ [CallGet a (sdk_Get a (world st)).1];
           logged := logged st |}.
Proof. unfold Get. by destruct (sdk_Get a (world st)) as [e w]. Qed.

(** A returning [Get] was made on a non-nil pointer and touches neither the
    cells nor the log. *)
Lemma Get_inv p st oe st' :
  Get p st = Ret oe st' →
  ∃ a, p = Some a ∧ oe = (sdk_Get a (world st)).1
       ∧ world st' = (sdk_Get a (world st)).2
       ∧ cells st' = cells st ∧ logged st' = logged st ∧ next st' = next st.
Proof.
  destruct p as [a|]; [|discriminate].
  rewrite Get_eq. intros [= <- <-]. by exists a.
Qed.

Lemma Store_inv c x st st' :
  Store c x st = Ret tt st' →
  cells st' = <[c := x]> (cells st) ∧ world st' = world st
  ∧ logged st' = logged st ∧ calls st' = calls st ∧ next st' = next st.
Proof.
  unfold Store. destruct (cells st !! c) as [old|].
  - destruct (same_dyntype old x); [|discriminate]. by intros [= <-].
  - by intros [= <-].
Qed.

(** A store of a credentials pointer goes through unless the cell holds a
    value of another type. *)
Lemma Store_creds_ok c p st :
  storable st c →
  Store c (AnyCreds p) st
  = Ret tt {| world := world st; cells := <[c := AnyCreds p]> (cells st);
              next := next st; calls := calls st; logged := logged st |}.
Proof.
  intros Hs. unfold Store. destruct (cells st !! c) as [[q|t]|] eqn:E; try done.
  by destruct (Hs t).
Qed.

(** *** The three ways through [refresh] *)

Lemma refresh_factory_error s F st p e w :
  newcreds s = Some F → F (world st) = (p, Some e, w) →
  Swapper_refresh s st
  = Ret (Some (ErrorfW "failed to create new credentials" e))
        {| world := w; cells := cells st; next := next st;
           calls := calls st ++ [CallNewCreds p (Some e)]; logged := logged st |}.
Proof.
  intros HF HFw. unfold Swapper_refresh. unfold_M.
  by rewrite HF, callNewCreds_eq, HFw.
Qed.

Lemma refresh_get_error s F st a e w w' :
  newcreds s = Some F → F (world st) = (Some a, None, w) →
  sdk_Get a w = (Some e, w') →
  Swapper_refresh s st
  = Ret (Some (ErrorfW "failed to retrieve credentials value" e))
        {| world := w'; cells := cells st; next := next st;
           calls := calls st ++ [CallNewCreds (Some a) None; CallGet a (Some e)];
           logged := logged st |}.
Proof.
  intros HF HFw HG. unfold Swapper_refresh. unfold_M.
  rewrite HF, callNewCreds_eq, HFw. cbn [fst snd world].
  rewrite Get_eq. cbn [fst snd world]. rewrite HG. simpl.
  by rewrite <- app_assoc.
Qed.

Lemma refresh_success s F st a w w' :
  newcreds s = Some F → F (world st) = (Some a, None, w) →
  sdk_Get a w = (None, w') → storable st (cache s) →
  Swapper_refresh s st
  = Ret None
        {| world := w'; cells := <[cache s := AnyCreds (Some a)]> (cells st);
           next := next st;
           calls := calls st ++ [CallNewCreds (Some a) None; CallGet a None];
           logged := logged st |}.
Proof.
  intros HF HFw HG Hs. unfold Swapper_refresh. unfold_M.
  rewrite HF, callNewCreds_eq, HFw. cbn [fst snd world].
  rewrite Get_eq. cbn [fst snd world]. rewrite HG. cbn [fst snd].
  rewrite Store_creds_ok by done. simpl. by rewrite <- app_assoc.
Qed.

(** Every returning [refresh] went one of these three ways. *)
Lemma refresh_inv s F st oe st' :
  newcreds s = Some F →
  Swapper_refresh s st = Ret oe st' →
  ((∃ p e w, F (world st) = (p, Some e, w)
      ∧ oe = Some (ErrorfW "failed to create new credentials" e)
      ∧ cells st' = cells st)
   ∨ (∃ a e w w', F (world st) = (Some a, None, w) ∧ sdk_Get a w = (Some e, w')
      ∧ oe = Some (ErrorfW "failed to retrieve credentials value" e)
      ∧ cells st' = cells st)
   ∨ (∃ a w w', F (world st) = (Some a, None, w) ∧ sdk_Get a w = (None, w')
      ∧ oe = None
      ∧ cells st' = <[cache s := AnyCreds (Some a)]> (cells st)))
  ∧ logged st' = logged st ∧ next st' = next st.
Proof.
  intros HF. unfold Swapper_refresh. unfold_M.
  rewrite HF, callNewCreds_eq.
  destruct (F (world st)) as [[p [e|]] w] eqn:HFw; cbn [fst snd].
  - intros [= <- <-]. split; [|done]. left. by exists p, e, w.
  - destruct p as [a|]; [|discriminate].
    rewrite Get_eq. cbn [fst snd world].
    destruct (sdk_Get a w) as [[e|] w'] eqn:HG; cbn [fst snd].
    + intros [= <- <-]. split; [|done]. right; left. by exists a, e, w, w'.
    + match goal with |- context [Store ?c ?x ?st0] =>
        destruct (Store c x st0) as [[] st1|] eqn:HS; [|discriminate] end.
      apply Store_inv in HS as (Hc & _ & Hl & _ & Hn). simpl in *.
      intros [= <- <-]. split; [|done]. right; right. by exists a, w, w'.
Qed.

(** A [refresh] on a Swapper without factory does not return. *)
Lemma refresh_has_factory s st oe st' :
  Swapper_refresh s st = Ret oe st' → ∃ F, newcreds s = Some F.
Proof.
  unfold Swapper_refresh. unfold_M.
  destruct (newcreds s) as [F|]; [by exists F|discriminate].
Qed.

(** *** Logging and one iteration of the loops *)

Lemma Log_eq (l : Logger) (keyvals : list keyval) st :
  l ≠ NilLogger →
  Log l keyvals st
  = Ret tt {| world := world st; cells := cells st; next := next st;
              calls := calls st; logged := logged st ++ [(l, keyvals)] |}.
Proof. by destruct l. Qed.

Lemma Log_nil (keyvals : list keyval) st :
  Log NilLogger keyvals st = Panic NilDereference.
Proof. done. Qed.

Lemma Swapper_Run_tick s evs st :
  Swapper_Run s (TimerFired :: evs) st
  = match Swapper_refresh s st with
    | Ret (Some err) st1 =>
        if decide (logger (conf s) = NilLogger) then Panic NilDereference
        else
          Swapper_Run s evs
            {| world := world st1; cells := cells st1; next := next st1;
               calls := calls st1;
               logged := logged st1 ++
                 [(logger (conf s),
                   [KVStr "msg"; KVStr "failed to refresh aws credentials";
                    KVStr "err"; KVErr err])] |}
    | Ret None st1 => Swapper_Run s evs st1
    | Panic why => Panic why
    end.
Proof.
  cbn [Swapper_Run]. unfold mbind, M_bind.
  destruct (Swapper_refresh s st) as [[err|] st1|]; [|done|done].
  case_decide as Hl; [by rewrite Hl|]. by rewrite Log_eq.
Qed.

Lemma Refresher_Run_tick r evs st :
  Refresher_Run r (TimerFired :: evs) st
  = match Get (r_creds r) st with
    | Ret (Some err) st1 =>
        if decide (logger (r_conf r) = NilLogger) then Panic NilDereference
        else
          Refresher_Run r evs
            {| world := world st1; cells := cells st1; next := next st1;
               calls := calls st1;
               logged := logged st1 ++
                 [(logger (r_conf r),
                   [KVStr "msg"; KVStr "failed to refresh aws credentials";
                    KVStr "err"; KVErr err])] |}
    | Ret None st1 => Refresher_Run r evs st1
    | Panic why => Panic why
    end.
Proof.
  cbn [Refresher_Run]. unfold mbind, M_bind.
  destruct (Get (r_creds r) st) as [[err|] st1|]; [|done|done].
  case_decide as Hl; [by rewrite Hl|]. by rewrite Log_eq.
Qed.

(** *** Refresh failures and the cache *)

(** C1. A [refresh] whose factory fails, or whose new credentials fail
    [Get], returns that error wrapped and leaves every cache cell as it was;
    a [refresh] that returns stores into the cache exactly when both
    succeeded, and then it stores the new credentials; and after a tick of
    [Run] whose refresh fails the cells, hence any read of the cache, are
    as before the tick (the tick comes back whenever the Swapper has a
    logger). *)
Theorem C1_refresh_failure_keeps_cache s F st :
  newcreds s = Some F →
  (∀ p e w, F (world st) = (p, Some e, w) →
     ∃ st', Swapper_refresh s st
              = Ret (Some (ErrorfW "failed to create new credentials" e)) st'
            ∧ Unwrap (ErrorfW "failed to create new credentials" e) = Some e
            ∧ cells st' = cells st)
  ∧ (∀ a e w w', F (world st) = (Some a, None, w) → sdk_Get a w = (Some e, w') →
     ∃ st', Swapper_refresh s st
              = Ret (Some (ErrorfW "failed to retrieve credentials value" e)) st'
            ∧ Unwrap (ErrorfW "failed to retrieve credentials value" e) = Some e
            ∧ cells st' = cells st)
  ∧ (∀ oe st', Swapper_refresh s st = Ret oe st' →
       (oe = None ↔
          ∃ a w w', F (world st) = (Some a, None, w) ∧ sdk_Get a w = (None, w'))
       ∧ (oe = None →
          cells st' = <[cache s := AnyCreds (F (world st)).1.1]> (cells st))
       ∧ (oe ≠ None → cells st' = cells st))
  ∧ (∀ e st1, Swapper_refresh s st = Ret (Some e) st1 →
       (logger (conf s) ≠ NilLogger →
        ∃ st2, Swapper_Run s [TimerFired] st = Ret Waiting st2
               ∧ cells st2 = cells st
               ∧ Load (cache s) st2 = Ret (cells st !! cache s) st2)
       ∧ (∀ status st2, Swapper_Run s [TimerFired] st = Ret status st2 →
            cells st2 = cells st
            ∧ Load (cache s) st2 = Ret (cells st !! cache s) st2)).
Proof.
  intros HF. split; [|split; [|split]].
  - intros p e w HFw. eexists. split; [by eapply refresh_factory_error|done].
  - intros a e w w' HFw HG. eexists.
    split; [by eapply refresh_get_error|done].
  - intros oe st' Hr.
    destruct (refresh_inv _ _ _ _ _ HF Hr) as [Hcase _].
    destruct Hcase as [(p & e & w & HFw & -> & Hc)
                      |[(a & e & w & w' & HFw & HG & -> & Hc)
                       |(a & w & w' & HFw & HG & -> & Hc)]].
    + split; [|done]. split; [done|]. intros (a & w1 & w1' & HFw1 & _).
      congruence.
    + split; [|done]. split; [done|]. intros (a1 & w1 & w1' & HFw1 & HG1).
      congruence.
    + split; [|by rewrite HFw]. split; [|done]. by exists a, w, w'.
  - intros e st1 Hr.
    destruct (refresh_inv _ _ _ _ _ HF Hr) as [Hcase _].
    assert (cells st1 = cells st) as Hc.
    { destruct Hcase as [(p & e' & w & HFw & ? & Hc)
                        |[(a & e' & w & w' & HFw & HG & ? & Hc)
                         |(a & w & w' & HFw & HG & ? & Hc)]]; done. }
    rewrite Swapper_Run_tick, Hr. split.
    + intros Hl. rewrite decide_False by done. simpl.
      eexists. split; [done|]. simpl. split; [done|].
      unfold Load. simpl. by rewrite Hc.
    + intros status st2. case_decide; [done|]. simpl. intros [= _ <-].
      simpl. split; [done|]. unfold Load. simpl. by rewrite Hc.
Qed.

(** *** Construction *)

Lemma NewSwapper_eq F (opts : list Option) st :
  NewSwapper (Some F) opts st
  = match Swapper_refresh
            {| conf := applyOptions opts defaultConfig;
               newcreds := Some F; cache := next st |}
            {| world := world st; cells := delete (next st) (cells st);
               next := S (next st); calls := calls st; logged := logged st |}
    with
    | Ret (Some err) st1 => Ret (None, Some err) st1
    | Ret None st1 =>
        Ret (Some {| conf := applyOptions opts defaultConfig;
                     newcreds := Some F; cache := next st |}, None) st1
    | Panic why => Panic why
    end.
Proof.
  unfold NewSwapper, newValue. unfold mbind, M_bind.
  match goal with |- context [Swapper_refresh ?s ?st0] =>
    by destruct (Swapper_refresh s st0) as [[err|] st1|] end.
Qed.

(** The cell of a new Swapper is zeroed, so the first store goes through. *)
Lemma newValue_storable st :
  storable {| world := world st; cells := delete (next st) (cells st);
              next := S (next st); calls := calls st; logged := logged st |}
           (next st).
Proof. intros t. simpl. by rewrite lookup_delete_eq. Qed.

(** What a successful [NewSwapper] leaves behind: one factory call, one
    [Get], and the new credentials in the cache of the Swapper. *)
Lemma NewSwapper_success F (opts : list Option) st s st' :
  NewSwapper (Some F) opts st = Ret (Some s, None) st' →
  newcreds s = Some F ∧ conf s = applyOptions opts defaultConfig
  ∧ ∃ a, calls st' = calls st ++ [CallNewCreds (Some a) None; CallGet a None]
         ∧ cells st' !! cache s = Some (AnyCreds (Some a)).
Proof.
  rewrite NewSwapper_eq.
  set (s0 := {| conf := applyOptions opts defaultConfig;
                newcreds := Some F; cache := next st |}).
  set (sta := {| world := world st; cells := delete (next st) (cells st);
                 next := S (next st); calls := calls st; logged := logged st |}).
  assert (newcreds s0 = Some F) as HF by done.
  assert (storable sta (cache s0)) as Hst by apply newValue_storable.
  destruct (Swapper_refresh s0 sta) as [[err|] st1|] eqn:Hr; intros [= <- <-].
  split; [done|]. split; [done|].
  destruct (refresh_inv _ _ _ _ _ HF Hr) as [Hcase _].
  destruct Hcase as [(p & e & w & HFw & ? & Hc)
                    |[(a & e & w & w' & HFw & HG & ? & Hc)
                     |(a & w & w' & HFw & HG & ? & Hc)]]; try discriminate.
  exists a. rewrite (refresh_success s0 F sta a w w') in Hr by done.
  injection Hr as <-. simpl. split; [done|]. by rewrite lookup_insert_eq.
Qed.

(** A nil pointer with a nil error from the factory: [Get] is called on
    nil. *)
Lemma refresh_nil_credentials s F st (w : World) :
  newcreds s = Some F → F (world st) = (None, None, w) →
  Swapper_refresh s st = Panic NilDereference.
Proof.
  intros HF HFw. unfold Swapper_refresh. unfold mbind, M_bind.
  by rewrite HF, callNewCreds_eq, HFw.
Qed.

(** C2. For a non-nil factory whose call does not return a nil pointer
    together with a nil error, [NewSwapper] returns a Swapper and a nil
    error if and only if the factory returns without error and [Get] on the
    returned credentials succeeds; when either step fails it returns nil
    and an error: the error of the factory or of [Get], wrapped. It always
    returns one of the two, and a Swapper it returns is the configured one
    with the new credentials in its cache. *)
Theorem C2_NewSwapper_succeeds_iff F (opts : list Option) st :
  (F (world st)).1 ≠ (None, None) →
  ((∃ s st', NewSwapper (Some F) opts st = Ret (Some s, None) st')
   ↔ ∃ a w w', F (world st) = (Some a, None, w) ∧ sdk_Get a w = (None, w'))
  ∧ (¬ (∃ a w w', F (world st) = (Some a, None, w) ∧ sdk_Get a w = (None, w')) →
       ∃ e st', NewSwapper (Some F) opts st = Ret (None, Some e) st')
  ∧ (∀ p e w, F (world st) = (p, Some e, w) →
       ∃ st', NewSwapper (Some F) opts st
              = Ret (None, Some (ErrorfW "failed to create new credentials" e)) st')
  ∧ (∀ a e w w', F (world st) = (Some a, None, w) → sdk_Get a w = (Some e, w') →
       ∃ st', NewSwapper (Some F) opts st
              = Ret (None, Some (ErrorfW "failed to retrieve credentials value" e)) st')
  ∧ (∃ res st', NewSwapper (Some F) opts st = Ret res st'
       ∧ ((∃ s, res = (Some s, None)) ∨ (∃ e, res = (None, Some e))))
  ∧ (∀ s st', NewSwapper (Some F) opts st = Ret (Some s, None) st' →
       newcreds s = Some F ∧ conf s = applyOptions opts defaultConfig
       ∧ ∃ a, calls st' = calls st ++ [CallNewCreds (Some a) None; CallGet a None]
              ∧ cells st' !! cache s = Some (AnyCreds (Some a))).
Proof.
  intros Hnn.
  assert (∀ s st', NewSwapper (Some F) opts st = Ret (Some s, None) st' →
            newcreds s = Some F ∧ conf s = applyOptions opts defaultConfig
            ∧ ∃ a, calls st' = calls st ++ [CallNewCreds (Some a) None; CallGet a None]
                   ∧ cells st' !! cache s = Some (AnyCreds (Some a))) as Hlast.
  { intros s st' Hn. by apply NewSwapper_success in Hn. }
  rewrite NewSwapper_eq in *.
  set (s0 := {| conf := applyOptions opts defaultConfig;
                newcreds := Some F; cache := next st |}) in *.
  set (sta := {| world := world st; cells := delete (next st) (cells st);
                 next := S (next st); calls := calls st; logged := logged st |})
    in *.
  assert (newcreds s0 = Some F) as HF by done.
  assert (storable sta (cache s0)) as Hst by apply newValue_storable.
  assert (∀ p e w, F (world st) = (p, Some e, w) →
            Swapper_refresh s0 sta
            = Ret (Some (ErrorfW "failed to create new credentials" e))
                  {| world := w; cells := cells sta; next := next sta;
                     calls := calls sta ++ [CallNewCreds p (Some e)];
                     logged := logged sta |}) as Hferr.
  { intros p e w HFw. by apply (refresh_factory_error s0 F sta p e w). }
  assert (∀ a e w w', F (world st) = (Some a, None, w) →
            sdk_Get a w = (Some e, w') →
            Swapper_refresh s0 sta
            = Ret (Some (ErrorfW "failed to retrieve credentials value" e))
                  {| world := w'; cells := cells sta; next := next sta;
                     calls := calls sta ++
                       [CallNewCreds (Some a) None; CallGet a (Some e)];
                     logged := logged sta |}) as Hgerr.
  { intros a e w w' HFw HG. by apply (refresh_get_error s0 F sta a e w w'). }
  assert (∀ a w w', F (world st) = (Some a, None, w) →
            sdk_Get a w = (None, w') →
            Swapper_refresh s0 sta
            = Ret None
                  {| world := w';
                     cells := <[cache s0 := AnyCreds (Some a)]> (cells sta);
                     next := next sta;
                     calls := calls sta ++
                       [CallNewCreds (Some a) None; CallGet a None];
                     logged := logged sta |}) as Hok.
  { intros a w w' HFw HG. by apply (refresh_success s0 F sta a w w'). }
  split; [split|split; [|split; [|split; [|split]]]].
  - intros (s & st' & Hn).
    destruct (Swapper_refresh s0 sta) as [[err|] st1|] eqn:Hr; try discriminate.
    destruct (refresh_inv _ _ _ _ _ HF Hr) as [Hcase _].
    destruct Hcase as [(p & e & w & HFw & ? & Hc)
                      |[(a & e & w & w' & HFw & HG & ? & Hc)
                       |(a & w & w' & HFw & HG & ? & Hc)]]; try discriminate.
    by exists a, w, w'.
  - intros (a & w & w' & HFw & HG). rewrite (Hok a w w') by done.
    by eexists _, _.
  - intros Hfail.
    destruct (F (world st)) as [[p [e|]] w] eqn:HFw.
    + rewrite (Hferr p e w) by done. by eexists _, _.
    + destruct p as [a|]; [|done].
      destruct (sdk_Get a w) as [[e|] w'] eqn:HG.
      * rewrite (Hgerr a e w w') by done. by eexists _, _.
      * destruct Hfail. by exists a, w, w'.
  - intros p e w HFw. rewrite (Hferr p e w) by done. by eexists.
  - intros a e w w' HFw HG. rewrite (Hgerr a e w w') by done. by eexists.
  - destruct (F (world st)) as [[p [e|]] w] eqn:HFw.
    + rewrite (Hferr p e w) by done. eexists _, _. split; [done|].
      right. by eexists.
    + destruct p as [a|]; [|done].
      destruct (sdk_Get a w) as [[e|] w'] eqn:HG.
      * rewrite (Hgerr a e w w') by done. eexists _, _. split; [done|].
        right. by eexists.
      * rewrite (Hok a w w') by done. eexists _, _. split; [done|].
        left. by eexists.
  - exact Hlast.
Qed.

(** C5. [NewSwapper] with a nil factory and [NewRefresher] with nil
    credentials return nil and the error that says so, and the state is
    untouched: no fetch was made, nothing was logged, no cell was set up. *)
Theorem C5_nil_arguments (opts : list Option) st :
  NewSwapper None opts st = Ret (None, Some (Errorf "newcreds cannot be nil")) st
  ∧ Error (Errorf "newcreds cannot be nil") = "newcreds cannot be nil"
  ∧ NewRefresher None opts st = Ret (None, Some (Errorf "creds cannot be nil")) st
  ∧ Error (Errorf "creds cannot be nil") = "creds cannot be nil".
Proof. done. Qed.

(** *** The signing hook *)

Lemma swapOption_hit s a signer st :
  cells st !! cache s = Some (AnyCreds (Some a)) →
  swapOption s signer st
  = Ret {| Credentials := Some a;
           DisableURIPathEscaping := DisableURIPathEscaping signer |} st.
Proof.
  intros Hc. unfold swapOption, Load. unfold mbind, M_bind. by rewrite Hc.
Qed.

Lemma swapOption_miss s signer st :
  logger (conf s) ≠ NilLogger → cache_miss s st →
  swapOption s signer st
  = Ret signer
        {| world := world st; cells := cells st; next := next st;
           calls := calls st;
           logged := logged st ++
             [(logger (conf s),
               [KVStr "msg"; KVStr "failed to swap aws credentials"])] |}.
Proof.
  intros Hl [Hc|[[t Hc]|Hc]]; unfold swapOption, Load; unfold mbind, M_bind;
    rewrite Hc; simpl; by rewrite Log_eq.
Qed.

Lemma swapOption_miss_nil s signer st :
  logger (conf s) = NilLogger → cache_miss s st →
  swapOption s signer st = Panic NilDereference.
Proof.
  intros Hl [Hc|[[t Hc]|Hc]]; unfold swapOption, Load; unfold mbind, M_bind;
    rewrite Hc, Hl; done.
Qed.

(** The cache either holds usable credentials or is a miss. *)
Lemma holds_creds_or_miss s st : holds_creds s st ∨ cache_miss s st.
Proof.
  unfold holds_creds, cache_miss.
  destruct (cells st !! cache s) as [[[a|]|t]|]; eauto.
Qed.

(** The hook never touches the cells, the world or the fetch history. *)
Lemma swapOption_frame s signer st signer' st' :
  swapOption s signer st = Ret signer' st' →
  cells st' = cells st ∧ world st' = world st ∧ calls st' = calls st.
Proof.
  destruct (holds_creds_or_miss s st) as [[a Ha]|Hm].
  - rewrite (swapOption_hit _ a) by done. by intros [= <- <-].
  - destruct (decide (logger (conf s) = NilLogger)) as [Hl|Hl].
    + by rewrite swapOption_miss_nil.
    + rewrite swapOption_miss by done. by intros [= <- <-].
Qed.

Lemma NewSigner_snoc p (opts : list SignerOption) (o : SignerOption) :
  NewSigner p (opts ++ [o]) = (signer ← NewSigner p opts; o signer).
Proof. unfold NewSigner. by rewrite foldl_app. Qed.

(** Sequentially, storing a non-nil credentials pointer [V] in the cache
    and then loading the cache gives [V], and the signing hook then sets
    the signer's [Credentials] to [V] and leaves the rest of the signer; the
    same holds for the store made by a [refresh] that succeeds with [V], and
    for the signer that the handler built by [Attach] materializes. The
    steps of a refresh before its store leave the cells as they were. *)
Lemma publish_then_read s a st :
  storable st (cache s) →
  (∃ st', Store (cache s) (AnyCreds (Some a)) st = Ret tt st'
     ∧ Load (cache s) st' = Ret (Some (AnyCreds (Some a))) st'
     ∧ (∀ signer, swapOption s signer st'
          = Ret {| Credentials := Some a;
                   DisableURIPathEscaping := DisableURIPathEscaping signer |} st')
     ∧ (∀ name req, Fn (BuildNamedHandler name ([] ++ [swapOption s])) req st'
          = Ret {| Credentials := Some a; DisableURIPathEscaping := false |} st'))
  ∧ (∀ F w w', newcreds s = Some F → F (world st) = (Some a, None, w) →
       sdk_Get a w = (None, w') →
       ∃ st', Swapper_refresh s st = Ret None st'
         ∧ Load (cache s) st' = Ret (Some (AnyCreds (Some a))) st'
         ∧ (∀ signer, swapOption s signer st'
              = Ret {| Credentials := Some a;
                       DisableURIPathEscaping := DisableURIPathEscaping signer |} st'))
  ∧ (∀ res st1, callNewCreds (newcreds s) st = Ret res st1 →
       Load (cache s) st1 = Ret (cells st !! cache s) st1
       ∧ ∀ oe st2, Get res.1 st1 = Ret oe st2 →
           Load (cache s) st2 = Ret (cells st !! cache s) st2).
Proof.
  intros Hs. split; [|split].
  - eexists. split; [by apply Store_creds_ok|].
    assert (∀ x (stx : St), cells stx = <[cache s := x]> (cells st) →
              cells stx !! cache s = Some x) as Hl.
    { intros x stx ->. by rewrite lookup_insert_eq. }
    split; [|split].
    + unfold Load. simpl. by rewrite lookup_insert_eq.
    + intros signer. apply swapOption_hit. by apply Hl.
    + intros name req. simpl. unfold NewSigner. simpl.
      unfold mbind, M_bind, mret, M_ret.
      rewrite (swapOption_hit _ a); [done|]. by apply Hl.
  - intros F w w' HF HFw HG. eexists.
    split; [by eapply refresh_success|].
    split.
    + unfold Load. simpl. by rewrite lookup_insert_eq.
    + intros signer. apply swapOption_hit. simpl. by rewrite lookup_insert_eq.
  - intros res st1 Hc.
    assert (cells st1 = cells st) as Hc1.
    { destruct (newcreds s) as [F|]; [|discriminate].
      rewrite callNewCreds_eq in Hc. by injection Hc as <- <-. }
    split; [unfold Load; by rewrite Hc1|].
    intros oe st2 HG. apply Get_inv in HG as (a' & _ & _ & _ & Hc2 & _).
    unfold Load. by rewrite Hc2, Hc1.
Qed.


(** *** Attach *)

Lemma SwapNamed_absent (l : list NamedHandler) (n : NamedHandler) :
  (∀ h, h ∈ l → Name h ≠ Name n) → SwapNamed l n = (false, l).
Proof.
  induction l as [|h l IH]; intros Hno; [done|]. simpl.
  rewrite IH by (intros h' Hin; apply Hno; by right).
  assert (Name h ≠ Name n) as Hne by (apply Hno; by left).
  apply String.eqb_neq in Hne. by rewrite Hne.
Qed.

Lemma SwapNamed_swaps (l : list NamedHandler) (n : NamedHandler) :
  (SwapNamed l n).2
  = (λ h, if String.eqb (Name h) (Name n) then n else h) <$> l.
Proof.
  induction l as [|h l IH]; [done|]. simpl.
  destruct (SwapNamed l n) as [sw l'] eqn:E. simpl in IH. subst l'.
  destruct (String.eqb (Name h) (Name n)) eqn:Heq; simpl; [|done].
  apply String.eqb_eq in Heq. rewrite Heq. by destruct n.
Qed.

Lemma SwapNamed_present (l : list NamedHandler) (n : NamedHandler) :
  (∃ h, h ∈ l ∧ Name h = Name n) → (SwapNamed l n).1 = true.
Proof.
  induction l as [|h l IH]; intros (h' & Hin & Hname).
  - by apply elem_of_nil in Hin.
  - simpl. destruct (SwapNamed l n) as [sw l'] eqn:E.
    destruct (String.eqb (Name h) (Name n)) eqn:Heq; [done|]. simpl.
    apply IH. apply elem_of_cons in Hin as [->|Hin].
    + apply String.eqb_neq in Heq. done.
    + by exists h'.
Qed.

(** C6. On a client whose signing pipeline has no step of the given name,
    [Attach] returns false and leaves the pipeline and the whole state (the
    cells, the world, the histories) as they were; on a client that has such
    a step it returns true and every step of that name becomes the handler
    built from the caller's options followed by the signing hook, the other
    steps and the state staying as they were. *)
Theorem C6_Attach_swaps_named_handler (name : string) s (c : Client)
    (opts : list SignerOption) st :
  ((∀ h, h ∈ Handlers_Sign c → Name h ≠ name) →
     Swapper_Attach name s c opts st = Ret (false, c) st)
  ∧ ((∃ h, h ∈ Handlers_Sign c ∧ Name h = name) →
     Swapper_Attach name s c opts st
     = Ret (true,
            {| Handlers_Sign :=
                 (λ h, if String.eqb (Name h) name
                       then BuildNamedHandler name (opts ++ [swapOption s])
                       else h) <$> Handlers_Sign c |}) st).
Proof.
  unfold Swapper_Attach. split.
  - intros Hno. rewrite SwapNamed_absent by done. by destruct c.
  - intros Hex.
    pose proof (SwapNamed_present (Handlers_Sign c)
                  (BuildNamedHandler name (opts ++ [swapOption s])) Hex) as H1.
    pose proof (SwapNamed_swaps (Handlers_Sign c)
                  (BuildNamedHandler name (opts ++ [swapOption s]))) as H2.
    destruct (SwapNamed _ _) as [sw l']. simpl in H1, H2. by subst.
Qed.

(** *** The loops *)

Lemma Swapper_Run_done s evs st :
  Swapper_Run s (CtxDone :: evs) st = Ret Returned st.
Proof. done. Qed.

Lemma Refresher_Run_done r evs st :
  Refresher_Run r (CtxDone :: evs) st = Ret Returned st.
Proof. done. Qed.

(** A run over [pre ++ evs] is the run over [pre] followed, if that one is
    still waiting, by the run over [evs]. *)
Lemma Swapper_Run_app s pre evs st :
  Swapper_Run s (pre ++ evs) st
  = match Swapper_Run s pre st with
    | Ret Waiting st1 => Swapper_Run s evs st1
    | other => other
    end.
Proof.
  revert st. induction pre as [|[] pre IH]; intros st; [done|done|].
  rewrite <- app_comm_cons, !Swapper_Run_tick.
  destruct (Swapper_refresh s st) as [[err|] st1|]; [|by rewrite IH|done].
  case_decide; [done|by rewrite IH].
Qed.

(** While only the timer fires, [Run] does not return, whatever the
    refreshes do. *)
Lemma Swapper_Run_timer_only s n st st' status :
  Swapper_Run s (replicate n TimerFired) st = Ret status st' → status = Waiting.
Proof.
  revert st. induction n as [|n IH]; intros st; [by intros [= <- _]|].
  simpl replicate. rewrite Swapper_Run_tick.
  destruct (Swapper_refresh s st) as [[err|] st1|]; [|apply IH|done].
  case_decide; [done|apply IH].
Qed.

Lemma Refresher_Run_timer_only r n st st' status :
  Refresher_Run r (replicate n TimerFired) st = Ret status st' → status = Waiting.
Proof.
  revert st. induction n as [|n IH]; intros st; [by intros [= <- _]|].
  simpl replicate. rewrite Refresher_Run_tick.
  destruct (Get (r_creds r) st) as [[err|] st1|]; [|apply IH|done].
  case_decide; [done|apply IH].
Qed.

(** C8, with the messages as the code has them. With a logger that is not
    nil, a tick of [Swapper.Run] or of [Refresher.Run] whose refresh returns
    an error makes exactly one [Log] call, with the arguments "msg", "failed
    to refresh aws credentials", "err" and the error, and goes on with the
    loop; a signing hook that misses the cache makes exactly one, with "msg"
    and "failed to swap aws credentials". *)
Theorem C8_diagnostics_messages :
  (∀ s st e st1, logger (conf s) ≠ NilLogger →
     Swapper_refresh s st = Ret (Some e) st1 →
     ∃ st2, (∀ evs, Swapper_Run s (TimerFired :: evs) st = Swapper_Run s evs st2)
       ∧ logged st2 = logged st ++
           [(logger (conf s),
             [KVStr "msg"; KVStr "failed to refresh aws credentials";
              KVStr "err"; KVErr e])])
  ∧ (∀ r st e st1, logger (r_conf r) ≠ NilLogger →
     Get (r_creds r) st = Ret (Some e) st1 →
     ∃ st2, (∀ evs, Refresher_Run r (TimerFired :: evs) st = Refresher_Run r evs st2)
       ∧ logged st2 = logged st ++
           [(logger (r_conf r),
             [KVStr "msg"; KVStr "failed to refresh aws credentials";
              KVStr "err"; KVErr e])])
  ∧ (∀ s signer st, logger (conf s) ≠ NilLogger → cache_miss s st →
     ∃ st2, swapOption s signer st = Ret signer st2
       ∧ logged st2 = logged st ++
           [(logger (conf s),
             [KVStr "msg"; KVStr "failed to swap aws credentials"])]).
Proof.
  split; [|split].
  - intros s st e st1 Hnil Hr. eexists. split.
    + intros evs. by rewrite Swapper_Run_tick, Hr, decide_False.
    + simpl. destruct (refresh_has_factory _ _ _ _ Hr) as [F HF].
      destruct (refresh_inv _ _ _ _ _ HF Hr) as (_ & Hl & _). by rewrite Hl.
  - intros r st e st1 Hnil HG. eexists. split.
    + intros evs. by rewrite Refresher_Run_tick, HG, decide_False.
    + simpl. apply Get_inv in HG as (a & _ & _ & _ & _ & Hl & _). by rewrite Hl.
  - intros s signer st Hnil Hm. eexists.
    split; [by apply swapOption_miss|done].
Qed.

(** *** The cache of a constructed Swapper *)

Lemma holds_creds_not_miss s st : holds_creds s st → ¬ cache_miss s st.
Proof.
  intros [a Ha] [Hm|[[t Hm]|Hm]]; rewrite Ha in Hm; discriminate.
Qed.

Lemma holds_creds_cells s st st' :
  cells st' = cells st → holds_creds s st → holds_creds s st'.
Proof. unfold holds_creds. by intros ->. Qed.

Lemma refresh_keeps_creds s st oe st' :
  holds_creds s st → Swapper_refresh s st = Ret oe st' → holds_creds s st'.
Proof.
  intros Hh Hr. destruct (refresh_has_factory _ _ _ _ Hr) as [F HF].
  destruct (refresh_inv _ _ _ _ _ HF Hr) as [Hcase _].
  destruct Hcase as [(p & e & w & _ & _ & Hc)
                    |[(a & e & w & w' & _ & _ & _ & Hc)
                     |(a & w & w' & _ & _ & _ & Hc)]].
  - by eapply holds_creds_cells.
  - by eapply holds_creds_cells.
  - exists a. by rewrite Hc, lookup_insert_eq.
Qed.

Lemma Run_keeps_creds s evs st status st' :
  holds_creds s st → Swapper_Run s evs st = Ret status st' → holds_creds s st'.
Proof.
  revert st. induction evs as [|[] evs IH]; intros st Hh.
  - by intros [= _ <-].
  - by intros [= _ <-].
  - rewrite Swapper_Run_tick.
    destruct (Swapper_refresh s st) as [[err|] st1|] eqn:Hr; [| |done].
    + case_decide; [done|].
      apply IH. eapply holds_creds_cells; [|by eapply refresh_keeps_creds].
      done.
    + apply IH. by eapply refresh_keeps_creds.
Qed.

Lemma exec_op_keeps_creds s op st st' :
  holds_creds s st → exec_op s op st = Ret tt st' → holds_creds s st'.
Proof.
  intros Hh. destruct op as [|evs|name c opts|signer]; simpl;
    unfold mbind, M_bind, mret, M_ret.
  - destruct (Swapper_refresh s st) as [oe st1|] eqn:Hr; [|done].
    intros [= <-]. by eapply refresh_keeps_creds.
  - destruct (Swapper_Run s evs st) as [status st1|] eqn:Hr; [|done].
    intros [= <-]. by eapply Run_keeps_creds.
  - unfold Swapper_Attach. destruct (SwapNamed _ _) as [sw l].
    unfold mret, M_ret. by intros [= <-].
  - destruct (swapOption s signer st) as [signer' st1|] eqn:Hr; [|done].
    intros [= <-]. apply swapOption_frame in Hr as (Hc & _).
    by eapply holds_creds_cells.
Qed.

Lemma exec_ops_keeps_creds s ops st st' :
  holds_creds s st → exec_ops s ops st = Ret tt st' → holds_creds s st'.
Proof.
  revert st. induction ops as [|op ops IH]; intros st Hh.
  - by intros [= <-].
  - simpl. unfold mbind, M_bind.
    destruct (exec_op s op st) as [[] st1|] eqn:Hop; [|done].
    apply IH. by eapply exec_op_keeps_creds.
Qed.

(** C10. For a Swapper that [NewSwapper] returned, the cache holds a non-nil
    credentials pointer right after construction and after any sequence of
    the Swapper's operations (refreshes, runs of the loop, attachments,
    signings) that follows; so the signing hook always takes its first
    branch: it sets the signer's credentials from the cache, logs nothing,
    and the cache is never a miss. *)
Theorem C10_cache_holds_creds_after_construction
    (nc : option NewCreds) (opts : list Option) st0 s st1 :
  NewSwapper nc opts st0 = Ret (Some s, None) st1 →
  holds_creds s st1
  ∧ ∀ ops st2, exec_ops s ops st1 = Ret tt st2 →
      holds_creds s st2
      ∧ ¬ cache_miss s st2
      ∧ ∀ signer, ∃ a,
          cells st2 !! cache s = Some (AnyCreds (Some a))
          ∧ swapOption s signer st2
            = Ret {| Credentials := Some a;
                     DisableURIPathEscaping := DisableURIPathEscaping signer |}
                  st2.
Proof.
  intros Hn.
  assert (holds_creds s st1) as Hh.
  { destruct nc as [F|]; [|discriminate].
    apply NewSwapper_success in Hn as (_ & _ & a & _ & Ha). by exists a. }
  split; [done|]. intros ops st2 Hops.
  assert (holds_creds s st2) as Hh2 by by eapply exec_ops_keeps_creds.
  split; [done|]. split; [by apply holds_creds_not_miss|].
  intros signer. destruct Hh2 as [a Ha]. exists a.
  split; [done|]. by apply swapOption_hit.
Qed.

End Properties.

(** ** The properties at work on the concrete world *)

(** A refresh whose factory fails, on a cache that holds credentials. *)
Lemma C1_witness :
  newcreds (demo_swapper demo_bad) = Some demo_bad
  ∧ ∃ st', Swapper_refresh (demo_swapper demo_bad) demo_st7
           = Ret (Some (ErrorfW "failed to create new credentials"
                                (ErrExternal "NoCredentialProviders"))) st'
           ∧ Unwrap (ErrorfW "failed to create new credentials"
                             (ErrExternal "NoCredentialProviders"))
             = Some (ErrExternal "NoCredentialProviders")
           ∧ cells st' = cells demo_st7.
Proof.
  split; [reflexivity|].
  apply (proj1 (C1_refresh_failure_keeps_cache
                  (demo_swapper demo_bad) demo_bad demo_st7 eq_refl)
               None (ErrExternal "NoCredentialProviders") 1).
  reflexivity.
Defined.

(** Construction with a factory whose credentials do not validate. *)
Lemma C2_witness :
  (demo_expired (world demo_st0)).1 ≠ (None, None)
  ∧ ∃ st', NewSwapper (Some demo_expired) [] demo_st0
           = Ret (None, Some (ErrorfW "failed to retrieve credentials value"
                                      (ErrExternal "ExpiredToken"))) st'.
Proof.
  assert ((demo_expired (world demo_st0)).1 ≠ (None, None)) as Hnn
    by (vm_compute; discriminate).
  split; [exact Hnn|].
  apply (proj1 (proj2 (proj2 (proj2
                 (C2_NewSwapper_succeeds_iff demo_expired [] demo_st0 Hnn))))
               100 (ErrExternal "ExpiredToken") 1 2); reflexivity.
Defined.

(** A factory that returns a nil pointer and a nil error: no step returned
    an error and the validation did not succeed, and [NewSwapper] returns
    neither a Swapper nor nil with an error; it panics in [Get]. *)
Lemma C2_counterexample :
  demo_nil (world demo_st0) = (None, None, 1)
  ∧ NewSwapper (Some demo_nil) [] demo_st0 = Panic NilDereference
  ∧ ¬ ((∃ s st', NewSwapper (Some demo_nil) [] demo_st0 = Ret (Some s, None) st')
       ∨ (∃ e st', NewSwapper (Some demo_nil) [] demo_st0
                   = Ret (None, Some e) st')).
Proof.
  split; [reflexivity|]. split; [reflexivity|].
  intros [(s & st' & Hn)|(e & st' & Hn)]; vm_compute in Hn; discriminate.
Qed.

(** Publishing the credentials object at 5 over the one at 7. *)
Lemma publish_then_read_demo :
  storable demo_st7 (cache (demo_swapper demo_good))
  ∧ ∃ st', Store (cache (demo_swapper demo_good)) (AnyCreds (Some 5)) demo_st7
           = Ret tt st'
           ∧ Load (cache (demo_swapper demo_good)) st'
             = Ret (Some (AnyCreds (Some 5))) st'
           ∧ swapOption (demo_swapper demo_good) demo_signer st'
             = Ret {| Credentials := Some 5; DisableURIPathEscaping := true |} st'.
Proof.
  assert (storable demo_st7 (cache (demo_swapper demo_good))) as Hs.
  { intros t Heq. vm_compute in Heq. discriminate. }
  split; [exact Hs|].
  destruct (proj1 (publish_then_read (demo_swapper demo_good) 5 demo_st7 Hs))
    as (st' & Hstore & Hload & Hhook & _).
  exists st'. split; [exact Hstore|]. split; [exact Hload|].
  exact (Hhook demo_signer).
Defined.

(** The zero-value Swapper attached to a client: the signing of a request
    panics. *)
Example demo_zero_Swapper_signing :
  (s ← zero_Swapper;
   r ← Swapper_Attach "v4.SignRequestHandler" s demo_client [];
   match Handlers_Sign r.2 !! 1%nat with
   | Some h => Fn h {| Config_Credentials := Some 42 |}
   | None => mret demo_signer
   end) demo_st0 = Panic NilDereference.
Proof. reflexivity. Qed.

(** Attaching to a client with, and to one without, the signing step. *)
Lemma C6_witness :
  Swapper_Attach "v4.SignRequestHandler" (demo_swapper demo_good)
                 demo_client_nosign [] demo_st7
  = Ret (false, demo_client_nosign) demo_st7
  ∧ ∃ c, Swapper_Attach "v4.SignRequestHandler" (demo_swapper demo_good)
                        demo_client [] demo_st7
         = Ret (true, c) demo_st7.
Proof.
  split.
  - apply (proj1 (C6_Attach_swaps_named_handler "v4.SignRequestHandler"
                    (demo_swapper demo_good) demo_client_nosign [] demo_st7)).
    intros h Hin. apply list_elem_of_singleton in Hin. subst h. discriminate.
  - eexists.
    apply (proj2 (C6_Attach_swaps_named_handler "v4.SignRequestHandler"
                    (demo_swapper demo_good) demo_client [] demo_st7)).
    exists (BuildNamedHandler "v4.SignRequestHandler" []).
    split; [|reflexivity]. simpl. apply elem_of_cons. right.
    apply elem_of_cons. by left.
Defined.

(** A failing tick and a missing signing log the messages of the code. *)
Lemma C8_witness :
  logger (conf (demo_swapper demo_bad)) ≠ NilLogger
  ∧ ∃ st2, Swapper_Run (demo_swapper demo_bad) [TimerFired] demo_st7
         = Swapper_Run (demo_swapper demo_bad) [] st2
         ∧ logged st2
           = [(SinkLogger 1,
               [KVStr "msg"; KVStr "failed to refresh aws credentials";
                KVStr "err";
                KVErr (ErrorfW "failed to create new credentials"
                               (ErrExternal "NoCredentialProviders"))])].
Proof.
  destruct (proj1 (@C8_diagnostics_messages demo_SDK)
              (demo_swapper demo_bad) demo_st7
              (ErrorfW "failed to create new credentials"
                       (ErrExternal "NoCredentialProviders"))
              (@mkSt demo_SDK 1 {[ 0 := AnyCreds (Some 7) ]} 1
                 [CallNewCreds None (Some (ErrExternal "NoCredentialProviders"))]
                 [])
              ltac:(discriminate) eq_refl)
    as (st2 & Hrun & Hlog).
  split; [discriminate|].
  exists st2. split; [exact (Hrun [])|exact Hlog].
Defined.

(** The messages as the specification words them are not what is logged:
    neither on a failing tick nor on a signing that misses the cache. *)
Lemma C8_counterexample :
  ¬ (∃ st2, Swapper_Run (demo_swapper demo_bad) [TimerFired] demo_st7
            = Ret Waiting st2
            ∧ logged st2
              = logged demo_st7 ++
                [(SinkLogger 1,
                  [KVStr "msg"; KVStr "failed to refresh credentials";
                   KVStr "err";
                   KVErr (ErrorfW "failed to create new credentials"
                                  (ErrExternal "NoCredentialProviders"))])])
  ∧ ¬ (∃ st2, swapOption (demo_swapper demo_good) demo_signer demo_st0
              = Ret demo_signer st2
              ∧ logged st2
                = logged demo_st0 ++
                  [(SinkLogger 1,
                    [KVStr "msg"; KVStr "failed to swap credentials"])]).
Proof.
  split; intros (st2 & Hrun & Hlog); vm_compute in Hrun;
    injection Hrun as <-; vm_compute in Hlog; discriminate.
Qed.

(** A Swapper built on the fresh-credentials factory, run for one tick until
    cancellation: the hook then signs with the credentials of that tick. *)
Lemma C10_witness :
  NewSwapper (Some demo_good) [WithLogger (SinkLogger 1)] demo_st0
  = Ret (Some (demo_swapper demo_good), None)
        (@mkSt demo_SDK 2 {[ 0 := AnyCreds (Some 0) ]} 1
           [CallNewCreds (Some 0) None; CallGet 0 None] [])
  ∧ ∃ a st2,
      exec_ops (demo_swapper demo_good) [OpRun [TimerFired; CtxDone]]
        (@mkSt demo_SDK 2 {[ 0 := AnyCreds (Some 0) ]} 1
           [CallNewCreds (Some 0) None; CallGet 0 None] [])
      = Ret tt st2
      ∧ cells st2 !! cache (demo_swapper demo_good) = Some (AnyCreds (Some a))
      ∧ swapOption (demo_swapper demo_good) demo_signer st2
        = Ret {| Credentials := Some a; DisableURIPathEscaping := true |} st2.
Proof.
  split; [reflexivity|].
  assert (exec_ops (demo_swapper demo_good) [OpRun [TimerFired; CtxDone]]
            (@mkSt demo_SDK 2 {[ 0 := AnyCreds (Some 0) ]} 1
               [CallNewCreds (Some 0) None; CallGet 0 None] [])
          = Ret tt (@mkSt demo_SDK 4 {[ 0 := AnyCreds (Some 2) ]} 1
                      [CallNewCreds (Some 0) None; CallGet 0 None;
                       CallNewCreds (Some 2) None; CallGet 2 None] []))
    as Hops by (vm_compute; reflexivity).
  destruct (proj2 (C10_cache_holds_creds_after_construction
                     (Some demo_good) [WithLogger (SinkLogger 1)] demo_st0
                     (demo_swapper demo_good)
                     (@mkSt demo_SDK 2 {[ 0 := AnyCreds (Some 0) ]} 1
                        [CallNewCreds (Some 0) None; CallGet 0 None] [])
                     eq_refl)
                  [OpRun [TimerFired; CtxDone]] _ Hops)
    as (_ & _ & Hsign).
  destruct (Hsign demo_signer) as (a & Hcell & Hhook).
  exists a. eexists. split; [exact Hops|]. split; [exact Hcell|exact Hhook].
Defined.

(** ** Further properties of the package *)

Section MoreProperties.
Context `{SDK}.

Implicit Types (s : Swapper) (r : Refresher) (st : St) (F : NewCreds)
  (a : addr) (p : CredsPtr) (e : error) (evs : list SelectCase).

(** *** Options *)

Lemma applyOptions_snoc (opts : list Option) (o : Option) (c : Config) :
  applyOptions (opts ++ [o]) c = o (applyOptions opts c).
Proof. unfold applyOptions. by rewrite foldl_app. Qed.

(** The fields of a [Config] after options written with the constructors. *)
Lemma applyOptions_specs (specs : list OptionSpec) (c : Config) :
  logger (applyOptions (toOption <$> specs) c)
  = default (logger c) (last (omap loggerOf specs))
  ∧ period (applyOptions (toOption <$> specs) c)
    = default (period c) (last (omap periodOf specs)).
Proof.
  induction specs as [|o specs IH] using rev_ind; [done|].
  rewrite fmap_app, !omap_app. simpl. rewrite applyOptions_snoc.
  destruct IH as [IHl IHp].
  destruct o as [l|q]; simpl; rewrite ?app_nil_r, ?last_snoc; simpl; done.
Qed.

(** X2. Of the options written with [WithLogger] and [WithPeriod], the last
    one of each kind decides its field, and a field for which no option is
    given keeps its value: the two kinds do not disturb each other. *)
Theorem X2_last_option_wins (specs : list OptionSpec) (c : Config) :
  logger (applyOptions (toOption <$> specs) c)
  = default (logger c) (last (omap loggerOf specs))
  ∧ period (applyOptions (toOption <$> specs) c)
    = default (period c) (last (omap periodOf specs)).
Proof. apply applyOptions_specs. Qed.

(** *** Construction *)

(** X1. [NewRefresher] on a non-nil credentials handle makes exactly one
    [Get] on it: if that succeeds it returns the Refresher, configured by
    the options, on that same handle; if it fails it returns nil and the
    error of [Get] wrapped. Nothing else changes. *)
Theorem X1_NewRefresher_outcomes a (opts : list Option) st :
  (∀ w, sdk_Get a (world st) = (None, w) →
     NewRefresher (Some a) opts st
     = Ret (Some {| r_conf := applyOptions opts defaultConfig;
                    r_creds := Some a |}, None)
           {| world := w; cells := cells st; next := next st;
              calls := calls st ++ [CallGet a None]; logged := logged st |})
  ∧ (∀ e w, sdk_Get a (world st) = (Some e, w) →
     NewRefresher (Some a) opts st
     = Ret (None, Some (ErrorfW "failed to retrieve credentials value" e))
           {| world := w; cells := cells st; next := next st;
              calls := calls st ++ [CallGet a (Some e)]; logged := logged st |}
     ∧ Unwrap (ErrorfW "failed to retrieve credentials value" e) = Some e).
Proof.
  split.
  - intros w HG. unfold NewRefresher. unfold mbind, M_bind.
    rewrite Get_eq, HG. done.
  - intros e w HG. split; [|done]. unfold NewRefresher. unfold mbind, M_bind.
    rewrite Get_eq, HG. done.
Qed.

(** X3. Neither constructor ever logs: whatever it is given and whether it
    succeeds or fails, the history of [Log] calls is as before. *)
Theorem X3_constructors_do_not_log :
  (∀ (nc : option NewCreds) (opts : list Option) st res st',
     NewSwapper nc opts st = Ret res st' → logged st' = logged st)
  ∧ (∀ (creds : CredsPtr) (opts : list Option) st res st',
     NewRefresher creds opts st = Ret res st' → logged st' = logged st).
Proof.
  split.
  - intros [F|] opts st res st'; [|by intros [= _ <-]].
    rewrite NewSwapper_eq.
    match goal with |- context [Swapper_refresh ?s0 ?sta] =>
      destruct (Swapper_refresh s0 sta) as [oe st1|] eqn:Hr; [|done]
    end.
    apply refresh_inv with (F := F) in Hr as (_ & Hl & _); [|done].
    destruct oe; intros [= _ <-]; done.
  - intros [a|] opts st res st'; [|by intros [= _ <-]].
    unfold NewRefresher. unfold mbind, M_bind.
    destruct (Get (Some a) st) as [oe st1|] eqn:HG; [|done].
    apply Get_inv in HG as (a' & _ & _ & _ & _ & Hl & _).
    destruct oe; intros [= _ <-]; done.
Qed.

(** *** One refresh *)

(** The three ways through a returning [refresh], with the fetches made. *)
Lemma refresh_cases s st oe st' :
  Swapper_refresh s st = Ret oe st' →
  ((∃ p e, oe = Some (ErrorfW "failed to create new credentials" e)
      ∧ calls st' = calls st ++ [CallNewCreds p (Some e)]
      ∧ cells st' = cells st)
   ∨ (∃ a e, oe = Some (ErrorfW "failed to retrieve credentials value" e)
      ∧ calls st' = calls st ++ [CallNewCreds (Some a) None; CallGet a (Some e)]
      ∧ cells st' = cells st)
   ∨ (∃ a, oe = None
      ∧ calls st' = calls st ++ [CallNewCreds (Some a) None; CallGet a None]
      ∧ cells st' = <[cache s := AnyCreds (Some a)]> (cells st)))
  ∧ logged st' = logged st ∧ next st' = next st.
Proof.
  unfold Swapper_refresh. unfold mbind, M_bind, mret, M_ret.
  destruct (newcreds s) as [F|]; [|done].
  rewrite callNewCreds_eq.
  destruct (F (world st)) as [[p [e|]] w]; cbn [fst snd].
  - intros [= <- <-]. split; [|done]. left. by exists p, e.
  - destruct p as [a|]; [|done].
    rewrite Get_eq. cbn [fst snd world].
    destruct (sdk_Get a w) as [[e|] w']; cbn [fst snd].
    + intros [= <- <-]. split; [|done]. right; left. exists a, e.
      simpl. by rewrite <- app_assoc.
    + match goal with |- context [Store ?c ?x ?st0] =>
        destruct (Store c x st0) as [[] st1|] eqn:HS; [|done] end.
      apply Store_inv in HS as (Hc & _ & Hl & Hcalls & Hn). simpl in *.
      intros [= <- <-]. split; [|done]. right; right. exists a.
      rewrite Hcalls, <- app_assoc. done.
Qed.

(** X4. A [refresh] that returns has called the factory exactly once, has
    called [Get] only if the factory returned no error and then exactly once
    and on the pointer the factory returned, has logged nothing, and has
    left every cell other than the Swapper's own cache as it was. *)
Theorem X4_refresh_footprint s st oe st' :
  Swapper_refresh s st = Ret oe st' →
  (∃ new, calls st' = calls st ++ new
     ∧ countCalls isNewCreds new = 1
     ∧ ((∃ p e, new = [CallNewCreds p (Some e)])
        ∨ (∃ a ge, new = [CallNewCreds (Some a) None; CallGet a ge])))
  ∧ logged st' = logged st
  ∧ ∀ c, c ≠ cache s → cells st' !! c = cells st !! c.
Proof.
  intros Hr. apply refresh_cases in Hr as (Hcase & Hl & _).
  destruct Hcase as [(p & e & _ & Hcalls & Hc)
                    |[(a & e & _ & Hcalls & Hc)|(a & _ & Hcalls & Hc)]].
  - split; [|split; [done|by rewrite Hc]].
    eexists. split; [done|]. split; [done|]. left. by exists p, e.
  - split; [|split; [done|by rewrite Hc]].
    eexists. split; [done|]. split; [done|]. right. by exists a, (Some e).
  - split; [|split; [done|]].
    + eexists. split; [done|]. split; [done|]. right. by exists a, None.
    + intros c Hne. rewrite Hc. by rewrite lookup_insert_ne.
Qed.

(** *** The loops as a whole *)

Lemma Refresher_Run_app r pre evs st :
  Refresher_Run r (pre ++ evs) st
  = match Refresher_Run r pre st with
    | Ret Waiting st1 => Refresher_Run r evs st1
    | other => other
    end.
Proof.
  revert st. induction pre as [|[] pre IH]; intros st; [done|done|].
  rewrite <- app_comm_cons, !Refresher_Run_tick.
  destruct (Get (r_creds r) st) as [[err|] st1|]; [|by rewrite IH|done].
  case_decide; [done|by rewrite IH].
Qed.

(** X6. Cancellation: when the loop is waiting after the cases [pre], the
    cancellation case makes it return at once in the state the last tick
    left (no refresh, no fetch, no log), and whatever cases would follow are
    never taken. *)
Theorem X6_Run_returns_on_cancellation :
  (∀ s pre rest st st1,
     Swapper_Run s pre st = Ret Waiting st1 →
     Swapper_Run s (pre ++ CtxDone :: rest) st = Ret Returned st1)
  ∧ (∀ r pre rest st st1,
     Refresher_Run r pre st = Ret Waiting st1 →
     Refresher_Run r (pre ++ CtxDone :: rest) st = Ret Returned st1).
Proof.
  split.
  - intros s pre rest st st1 Hpre. by rewrite Swapper_Run_app, Hpre.
  - intros r pre rest st st1 Hpre. by rewrite Refresher_Run_app, Hpre.
Qed.

Lemma elem_of_CtxDone_timer evs :
  CtxDone ∈ TimerFired :: evs ↔ CtxDone ∈ evs.
Proof.
  rewrite elem_of_cons. split; [intros [Heq|Hin]; [discriminate|done]|by right].
Qed.

(** What a returning run of [Swapper.Run] has done, in terms of the fetches
    it made. *)
Lemma Swapper_Run_summary s evs st status st' :
  Swapper_Run s evs st = Ret status st' →
  ∃ new,
    calls st' = calls st ++ new
    ∧ logged st' = logged st ++ omap (swapperLogOf (logger (conf s))) new
    ∧ countCalls isNewCreds new = ticks_before_done evs
    ∧ cells st'
      = match lastValidated new with
        | Some a => <[cache s := AnyCreds (Some a)]> (cells st)
        | None => cells st
        end
    ∧ next st' = next st
    ∧ (status = Returned ↔ CtxDone ∈ evs).
Proof.
  revert st. induction evs as [|[] evs IH]; intros st.
  - intros [= <- <-]. exists []. rewrite !app_nil_r.
    repeat split; try done. intros Hin. by apply elem_of_nil in Hin.
  - intros [= <- <-]. exists []. rewrite !app_nil_r.
    repeat split; try done. intros _. by left.
  - rewrite Swapper_Run_tick.
    destruct (Swapper_refresh s st) as [[err|] st1|] eqn:Hr; [| |done].
    + case_decide; [done|].
      intros Hrun. apply IH in Hrun as (new2 & Hc2 & Hl2 & Hn2 & Hcells2 & Hnx2 & Hiff).
      simpl in *.
      apply refresh_cases in Hr as (Hcase & Hl1 & Hnx1).
      destruct Hcase as [(p & e & [= ->] & Hc1 & Hcells1)
                        |[(a & e & [= ->] & Hc1 & Hcells1)
                         |(a & [=] & _)]].
      * exists (CallNewCreds p (Some e) :: new2).
        rewrite Hc2, Hc1, <- app_assoc. split; [done|].
        rewrite Hl2, Hl1, <- app_assoc. split; [done|].
        split; [unfold countCalls in *; simpl; by rewrite Hn2|].
        split.
        { simpl. rewrite Hcells2, Hcells1. by destruct (lastValidated new2). }
        split; [congruence|]. by rewrite elem_of_CtxDone_timer.
      * exists (CallNewCreds (Some a) None :: CallGet a (Some e) :: new2).
        rewrite Hc2, Hc1, <- app_assoc. split; [done|].
        rewrite Hl2, Hl1, <- app_assoc. split; [done|].
        split; [unfold countCalls in *; simpl; by rewrite Hn2|].
        split.
        { simpl. rewrite Hcells2, Hcells1. by destruct (lastValidated new2). }
        split; [congruence|]. by rewrite elem_of_CtxDone_timer.
    + intros Hrun. apply IH in Hrun as (new2 & Hc2 & Hl2 & Hn2 & Hcells2 & Hnx2 & Hiff).
      apply refresh_cases in Hr as (Hcase & Hl1 & Hnx1).
      destruct Hcase as [(p & e & [=] & _)
                        |[(a & e & [=] & _)
                         |(a & _ & Hc1 & Hcells1)]].
      exists (CallNewCreds (Some a) None :: CallGet a None :: new2).
      rewrite Hc2, Hc1, <- app_assoc. split; [done|].
      rewrite Hl2, Hl1. split; [done|].
      split; [unfold countCalls in *; simpl; by rewrite Hn2|].
      split.
      { simpl. rewrite Hcells2, Hcells1.
        destruct (lastValidated new2); [by rewrite insert_insert_eq|done]. }
      split; [congruence|]. by rewrite elem_of_CtxDone_timer.
Qed.

(** What a returning run of [Refresher.Run] has done. *)
Lemma Refresher_Run_summary r evs st status st' :
  Refresher_Run r evs st = Ret status st' →
  ∃ new,
    calls st' = calls st ++ new
    ∧ logged st' = logged st ++ omap (refresherLogOf (logger (r_conf r))) new
    ∧ length new = ticks_before_done evs
    ∧ Forall (λ c, ∃ a oe, r_creds r = Some a ∧ c = CallGet a oe) new
    ∧ cells st' = cells st
    ∧ next st' = next st
    ∧ (status = Returned ↔ CtxDone ∈ evs).
Proof.
  revert st. induction evs as [|[] evs IH]; intros st.
  - intros [= <- <-]. exists []. rewrite !app_nil_r.
    repeat split; try done. intros Hin. by apply elem_of_nil in Hin.
  - intros [= <- <-]. exists []. rewrite !app_nil_r.
    repeat split; try done. intros _. by left.
  - rewrite Refresher_Run_tick.
    destruct (Get (r_creds r) st) as [oe st1|] eqn:HG; [|done].
    pose proof HG as HG'.
    apply Get_inv in HG' as (a & Hr & Hoe & _ & Hcells1 & Hl1 & Hnx1).
    rewrite Hr, Get_eq in HG. injection HG as Hoe' Hst1.
    assert (calls st1 = calls st ++ [CallGet a oe]) as Hc1.
    { rewrite <- Hst1. simpl. by rewrite Hoe'. }
    destruct oe as [err|]; [case_decide; [done|]|]; intros Hrun;
      apply IH in Hrun as (new2 & Hc2 & Hl2 & Hn2 & Hall & Hcells2 & Hnx2 & Hiff);
      simpl in *.
    + exists (CallGet a (Some err) :: new2).
      rewrite Hc2, Hc1, <- app_assoc. split; [done|].
      rewrite Hl2, Hl1, <- app_assoc. split; [done|].
      split; [simpl; by rewrite Hn2|].
      split; [constructor; [by exists a, (Some err)|done]|].
      split; [congruence|]. split; [congruence|].
      by rewrite elem_of_CtxDone_timer.
    + exists (CallGet a None :: new2).
      rewrite Hc2, Hc1, <- app_assoc. split; [done|].
      rewrite Hl2, Hl1. split; [done|].
      split; [simpl; by rewrite Hn2|].
      split; [constructor; [by exists a, None|done]|].
      split; [congruence|]. split; [congruence|].
      by rewrite elem_of_CtxDone_timer.
Qed.

(** X7. A run of either loop that comes back has returned exactly when the
    cancellation case was among the select cases it was given: no number of
    ticks, failing or not, makes [Run] return. *)
Theorem X7_Run_returns_iff_cancelled :
  (∀ s evs st status st',
     Swapper_Run s evs st = Ret status st' →
     (status = Returned ↔ CtxDone ∈ evs))
  ∧ (∀ r evs st status st',
     Refresher_Run r evs st = Ret status st' →
     (status = Returned ↔ CtxDone ∈ evs)).
Proof.
  split.
  - intros s evs st status st' Hrun.
    by apply Swapper_Run_summary in Hrun as (new & _ & _ & _ & _ & _ & Hiff).
  - intros r evs st status st' Hrun.
    by apply Refresher_Run_summary in Hrun as (new & _ & _ & _ & _ & _ & _ & Hiff).
Qed.

(** X8. [Swapper.Run] calls the factory exactly once per tick taken before
    the cancellation and never after it, and its log is exactly the failed
    fetches in order: one call on the Swapper's logger per fetch that
    returned an error, with that error wrapped, and none for a success. *)
Theorem X8_Swapper_Run_fetches_and_logs s evs st status st' :
  Swapper_Run s evs st = Ret status st' →
  ∃ new,
    calls st' = calls st ++ new
    ∧ countCalls isNewCreds new = ticks_before_done evs
    ∧ logged st' = logged st ++ omap (swapperLogOf (logger (conf s))) new
    ∧ next st' = next st.
Proof.
  intros Hrun.
  apply Swapper_Run_summary in Hrun as (new & Hc & Hl & Hn & _ & Hnx & _).
  by exists new.
Qed.

(** X9. After a run of [Swapper.Run] the cache holds the credentials of the
    latest [Get] that succeeded during the run; when no refresh of the run
    succeeded the cells are exactly as before the run; and in any case no
    cell other than the Swapper's own cache is changed. *)
Theorem X9_Swapper_Run_cache_is_last_validated s evs st status st' :
  Swapper_Run s evs st = Ret status st' →
  ∃ new,
    calls st' = calls st ++ new
    ∧ (∀ a, lastValidated new = Some a →
         cells st' = <[cache s := AnyCreds (Some a)]> (cells st)
         ∧ Load (cache s) st' = Ret (Some (AnyCreds (Some a))) st')
    ∧ (lastValidated new = None → cells st' = cells st)
    ∧ (∀ c, c ≠ cache s → cells st' !! c = cells st !! c).
Proof.
  intros Hrun.
  apply Swapper_Run_summary in Hrun as (new & Hc & _ & _ & Hcells & _).
  exists new. split; [done|]. split; [|split].
  - intros a Ha. rewrite Ha in Hcells. split; [done|].
    unfold Load. by rewrite Hcells, lookup_insert_eq.
  - intros Hnone. by rewrite Hnone in Hcells.
  - intros c Hne. rewrite Hcells.
    destruct (lastValidated new); [by rewrite lookup_insert_ne|done].
Qed.

(** X10. [Refresher.Run] makes exactly one [Get] per tick taken before the
    cancellation, always on the Refresher's own credentials handle; it never
    calls a factory and never touches a cache cell; and its log is exactly
    the failed [Get]s in order, each with the error as [Get] returned it. *)
Theorem X10_Refresher_Run_footprint r evs st status st' :
  Refresher_Run r evs st = Ret status st' →
  ∃ new,
    calls st' = calls st ++ new
    ∧ length new = ticks_before_done evs
    ∧ Forall (λ c, ∃ a oe, r_creds r = Some a ∧ c = CallGet a oe) new
    ∧ logged st' = logged st ++ omap (refresherLogOf (logger (r_conf r))) new
    ∧ cells st' = cells st.
Proof.
  intros Hrun.
  apply Refresher_Run_summary in Hrun
    as (new & Hc & Hl & Hn & Hall & Hcells & _).
  by exists new.
Qed.

(** *** Attached clients *)

Lemma SwapNamed_fst_iff (l : list NamedHandler) (n : NamedHandler) :
  (SwapNamed l n).1 = true ↔ Name n ∈ Name <$> l.
Proof.
  split.
  - intros Htrue. destruct (decide (Name n ∈ Name <$> l)) as [|Hno]; [done|].
    rewrite SwapNamed_absent in Htrue; [done|].
    intros h Hin Heq. apply Hno. rewrite <- Heq.
    apply list_elem_of_fmap. by exists h.
  - intros Hin. apply list_elem_of_fmap in Hin as (h & Heq & Hin).
    apply SwapNamed_present. by exists h.
Qed.

(** [Attach] never fails and never touches the state; what it returns. *)
Lemma Attach_eq (name : string) s (c : Client) (opts : list SignerOption) st :
  Swapper_Attach name s c opts st
  = Ret ((SwapNamed (Handlers_Sign c)
            (BuildNamedHandler name (opts ++ [swapOption s]))).1,
         {| Handlers_Sign :=
              (λ h, if String.eqb (Name h) name
                    then BuildNamedHandler name (opts ++ [swapOption s])
                    else h) <$> Handlers_Sign c |}) st.
Proof.
  unfold Swapper_Attach.
  pose proof (SwapNamed_swaps (Handlers_Sign c)
                (BuildNamedHandler name (opts ++ [swapOption s]))) as Hl.
  destruct (SwapNamed _ _) as [sw l']. simpl in *. by subst l'.
Qed.

(** X11. Whatever credentials the request was configured with and whatever
    the caller's signer options did, when they have run the hook puts the
    cached credentials on the signer and leaves its other fields as the
    caller's options set them; the state is as the options left it. *)
Theorem X11_cached_credentials_override (name : string) s (req : Request)
    (opts : list SignerOption) st (sg : Signer) st1 a :
  NewSigner (Config_Credentials req) opts st = Ret sg st1 →
  cells st1 !! cache s = Some (AnyCreds (Some a)) →
  Fn (BuildNamedHandler name (opts ++ [swapOption s])) req st
  = Ret {| Credentials := Some a;
           DisableURIPathEscaping := DisableURIPathEscaping sg |} st1.
Proof.
  intros Hopts Hcell. simpl. rewrite NewSigner_snoc.
  unfold mbind, M_bind. rewrite Hopts. by apply swapOption_hit.
Qed.

(** X12. A client attached before a refresh signs with what the refresh
    published: after [Attach] on a client that has the signing step and a
    later [refresh] that succeeds with the credentials [a], the step that
    [Attach] installed signs every request with [a]. *)
Theorem X12_attached_client_sees_later_refresh (name : string) s F
    (c : Client) (i : nat) (h : NamedHandler) st a (w w' : World) :
  Handlers_Sign c !! i = Some h → Name h = name →
  newcreds s = Some F → F (world st) = (Some a, None, w) →
  sdk_Get a w = (None, w') → storable st (cache s) →
  ∃ c' h' st',
    Swapper_Attach name s c [] st = Ret (true, c') st
    ∧ Handlers_Sign c' !! i = Some h' ∧ Name h' = name
    ∧ Swapper_refresh s st = Ret None st'
    ∧ ∀ req, Fn h' req st'
             = Ret {| Credentials := Some a;
                      DisableURIPathEscaping := false |} st'.
Proof.
  intros Hi Hname HF HFw HG Hs.
  assert ((SwapNamed (Handlers_Sign c)
             (BuildNamedHandler name ([] ++ [swapOption s]))).1 = true) as Hb.
  { apply SwapNamed_fst_iff. simpl. rewrite <- Hname.
    apply list_elem_of_fmap. exists h. split; [done|].
    by eapply list_elem_of_lookup_2. }
  eexists _, (BuildNamedHandler name ([] ++ [swapOption s])), _.
  split; [by rewrite Attach_eq, Hb|]. simpl.
  split.
  { rewrite list_lookup_fmap, Hi. simpl.
    apply String.eqb_eq in Hname. by rewrite Hname. }
  split; [done|].
  split; [by eapply refresh_success|].
  intros req. unfold NewSigner. simpl. unfold mbind, M_bind, mret, M_ret.
  apply swapOption_hit. simpl. by rewrite lookup_insert_eq.
Qed.

(** [Attach] always returns and never changes the state. It keeps the
    number, the order and the names of the steps of the pipeline; it
    returns true exactly when a step has the given name; and it leaves
    every step of another name as it was. *)
Lemma Attach_keeps_pipeline_shape (name : string) s (c : Client)
    (opts : list SignerOption) st :
  ∃ b c',
    Swapper_Attach name s c opts st = Ret (b, c') st
    ∧ Name <$> Handlers_Sign c' = Name <$> Handlers_Sign c
    ∧ (b = true ↔ name ∈ Name <$> Handlers_Sign c)
    ∧ ∀ i h, Handlers_Sign c !! i = Some h → Name h ≠ name →
             Handlers_Sign c' !! i = Some h.
Proof.
  eexists _, _. split; [apply Attach_eq|]. simpl. split; [|split].
  - rewrite <- list_fmap_compose. apply list_fmap_ext. intros i h _. simpl.
    destruct (String.eqb (Name h) name) eqn:Heq; [|done].
    by apply String.eqb_eq in Heq.
  - apply SwapNamed_fst_iff.
  - intros i h Hi Hne. rewrite list_lookup_fmap, Hi. simpl.
    apply String.eqb_neq in Hne. by rewrite Hne.
Qed.

(** X14. The last [Attach] wins: attaching a client that was attached
    before, to the same or to another Swapper, gives what attaching the
    original client gives; nothing of the earlier hook is left. *)
Theorem X14_last_Attach_wins (name : string) s1 s2 (c c1 : Client)
    (opts1 opts2 : list SignerOption) (b : bool) st st2 :
  Swapper_Attach name s1 c opts1 st = Ret (b, c1) st →
  Swapper_Attach name s2 c1 opts2 st2 = Swapper_Attach name s2 c opts2 st2.
Proof.
  rewrite Attach_eq. intros [= _ <-]. rewrite !Attach_eq. simpl.
  assert ((λ h, if String.eqb (Name h) name
                then BuildNamedHandler name (opts2 ++ [swapOption s2]) else h)
          <$> ((λ h, if String.eqb (Name h) name
                     then BuildNamedHandler name (opts1 ++ [swapOption s1])
                     else h) <$> Handlers_Sign c)
          = (λ h, if String.eqb (Name h) name
                  then BuildNamedHandler name (opts2 ++ [swapOption s2]) else h)
            <$> Handlers_Sign c) as ->.
  { rewrite <- list_fmap_compose. apply list_fmap_ext. intros i h _. simpl.
    destruct (String.eqb (Name h) name) eqn:Heq; simpl; [|by rewrite Heq].
    by rewrite String.eqb_refl. }
  f_equal. f_equal.
  destruct (SwapNamed _ _).1 eqn:E1;
    destruct (SwapNamed (Handlers_Sign c) _).1 eqn:E2; try done.
  - apply SwapNamed_fst_iff in E1. simpl in E1.
    rewrite <- list_fmap_compose in E1.
    assert (Name (BuildNamedHandler name (opts2 ++ [swapOption s2]))
            ∈ Name <$> Handlers_Sign c) as Hin.
    { simpl. erewrite list_fmap_ext; [exact E1|]. intros i h _. simpl.
      destruct (String.eqb (Name h) name) eqn:Heq; [|done].
      by apply String.eqb_eq in Heq. }
    apply SwapNamed_fst_iff in Hin. congruence.
  - apply SwapNamed_fst_iff in E2. simpl in E2.
    assert (Name (BuildNamedHandler name (opts2 ++ [swapOption s2]))
            ∈ Name <$> ((λ h, if String.eqb (Name h) name
                then BuildNamedHandler name (opts1 ++ [swapOption s1])
                else h) <$> Handlers_Sign c)) as Hin.
    { simpl. rewrite <- list_fmap_compose.
      erewrite list_fmap_ext; [exact E2|]. intros i h _. simpl.
      destruct (String.eqb (Name h) name) eqn:Heq; [|done].
      by apply String.eqb_eq in Heq. }
    apply SwapNamed_fst_iff in Hin. congruence.
Qed.

(** X15. What the signing hook does is decided by the cache and the
    logger. When the cache holds credentials it sets [Credentials] from the
    cache and changes nothing else; on a miss with a logger it gives the
    signer back as it was and makes one [Log] call; on a miss with a nil
    logger it panics. One of the three always applies, and whenever the hook
    returns it has made no fetch, written no cell and left every field of
    the signer but [Credentials]. *)
Theorem X15_hook_footprint s (signer : Signer) st :
  (holds_creds s st ∨ cache_miss s st)
  ∧ (∀ a, cells st !! cache s = Some (AnyCreds (Some a)) →
       swapOption s signer st
       = Ret {| Credentials := Some a;
                DisableURIPathEscaping := DisableURIPathEscaping signer |} st)
  ∧ (cache_miss s st → logger (conf s) ≠ NilLogger →
       ∃ st', swapOption s signer st = Ret signer st'
         ∧ logged st' = logged st ++ [swapLog (logger (conf s))])
  ∧ (cache_miss s st → logger (conf s) = NilLogger →
       swapOption s signer st = Panic NilDereference)
  ∧ (∀ signer' st', swapOption s signer st = Ret signer' st' →
       cells st' = cells st ∧ world st' = world st ∧ calls st' = calls st
       ∧ next st' = next st
       ∧ DisableURIPathEscaping signer' = DisableURIPathEscaping signer).
Proof.
  split; [apply holds_creds_or_miss|].
  split; [intros a Ha; by apply swapOption_hit|].
  split.
  { intros Hm Hl. eexists. split; [by apply swapOption_miss|done]. }
  split; [intros Hm Hl; by apply swapOption_miss_nil|].
  intros signer' st'.
  destruct (holds_creds_or_miss s st) as [[a Ha]|Hm].
  - rewrite (swapOption_hit _ a) by done. by intros [= <- <-].
  - destruct (decide (logger (conf s) = NilLogger)) as [Hl|Hl].
    + by rewrite swapOption_miss_nil.
    + rewrite swapOption_miss by done. by intros [= <- <-].
Qed.

(** *** Panics and their absence *)

(** X13. A factory that returns a nil pointer together with a nil error
    makes [refresh] call [Get] on nil: [refresh] panics, and so do
    [NewSwapper] and the tick of [Run] that call it; there is no check
    between the factory call and [Get]. *)
Theorem X13_nil_credentials_without_error_panic F st (w : World)
    (opts : list Option) :
  F (world st) = (None, None, w) →
  NewSwapper (Some F) opts st = Panic NilDereference
  ∧ ∀ s evs, newcreds s = Some F →
      Swapper_refresh s st = Panic NilDereference
      ∧ Swapper_Run s (TimerFired :: evs) st = Panic NilDereference.
Proof.
  intros HFw. split.
  - rewrite NewSwapper_eq. by erewrite refresh_nil_credentials.
  - intros s evs HF. split; [by eapply refresh_nil_credentials|].
    rewrite Swapper_Run_tick. by erewrite refresh_nil_credentials.
Qed.

Lemma holds_creds_storable s st : holds_creds s st → storable st (cache s).
Proof. intros [a Ha] t. by rewrite Ha. Qed.

(** A refresh returns when the factory does not give a nil pointer with a
    nil error and the cache can take credentials. *)
Lemma refresh_returns s F st :
  newcreds s = Some F → storable st (cache s) →
  (F (world st)).1 ≠ (None, None) →
  ∃ oe st', Swapper_refresh s st = Ret oe st'.
Proof.
  intros HF Hs Hnn.
  destruct (F (world st)) as [[p [e|]] w] eqn:HFw.
  - eexists _, _. by eapply refresh_factory_error.
  - destruct p as [a|]; [|done].
    destruct (sdk_Get a w) as [[e|] w'] eqn:HG.
    + eexists _, _. by eapply refresh_get_error.
    + eexists _, _. by eapply refresh_success.
Qed.

(** X17. The loop of a Swapper whose cache holds credentials, as after
    [NewSwapper], and whose factory never returns a nil pointer with a nil
    error, panics only for want of a logger. With a logger that is not nil
    [Run] always comes back, whatever the select cases and however many
    refreshes fail, and the cache still holds credentials. With a nil
    logger, as [WithLogger] accepts it, a tick whose refresh fails panics
    on the [Log] call, and a run that comes back has logged nothing. *)
Theorem X17_Swapper_Run_panic_freedom s F st :
  newcreds s = Some F → holds_creds s st →
  (∀ w : World, (F w).1 ≠ (None, None)) →
  (logger (conf s) ≠ NilLogger →
     ∀ evs, ∃ status st', Swapper_Run s evs st = Ret status st'
                          ∧ holds_creds s st')
  ∧ (logger (conf s) = NilLogger →
       (∀ evs e st1, Swapper_refresh s st = Ret (Some e) st1 →
          Swapper_Run s (TimerFired :: evs) st = Panic NilDereference)
       ∧ (∀ evs status st', Swapper_Run s evs st = Ret status st' →
            logged st' = logged st)).
Proof.
  intros HF Hh Hnn. split.
  - intros Hl evs. revert st Hh.
    induction evs as [|[] evs IH]; intros st Hh.
    + by eexists _, _.
    + by eexists _, _.
    + rewrite Swapper_Run_tick.
      destruct (refresh_returns s F st HF (holds_creds_storable _ _ Hh) (Hnn _))
        as (oe & st1 & Hr).
      rewrite Hr. pose proof (refresh_keeps_creds _ _ _ _ Hh Hr) as Hh1.
      destruct oe as [err|]; [rewrite decide_False by done|]; apply IH;
        [|done].
      by eapply holds_creds_cells.
  - intros Hl. split.
    + intros evs e st1 Hr. by rewrite Swapper_Run_tick, Hr, decide_True.
    + clear Hh. intros evs. revert st.
      induction evs as [|[] evs IH]; intros st status st'.
      * by intros [= _ <-].
      * by intros [= _ <-].
      * rewrite Swapper_Run_tick.
        destruct (Swapper_refresh s st) as [[err|] st1|] eqn:Hr; [| |done].
        { by rewrite decide_True. }
        intros Hrun. apply IH in Hrun. rewrite Hrun.
        by apply refresh_cases in Hr as (_ & Hlog & _).
Qed.

(** X18. The loop of a Refresher that [NewRefresher] returned panics only
    for want of a logger: its credentials handle is not nil, so with a
    logger that is not nil every tick comes back and [Run] goes on, in any
    state and whatever the select cases. With a nil logger, as [WithLogger]
    accepts it, a tick whose [Get] fails panics on the [Log] call, and a
    run that comes back has logged nothing. *)
Theorem X18_Refresher_Run_panic_freedom (creds : CredsPtr)
    (opts : list Option) st0 r st1 :
  NewRefresher creds opts st0 = Ret (Some r, None) st1 →
  r_creds r = creds ∧ creds ≠ None
  ∧ (logger (r_conf r) ≠ NilLogger →
       ∀ evs st, ∃ status st', Refresher_Run r evs st = Ret status st')
  ∧ (logger (r_conf r) = NilLogger →
       (∀ evs st e st2, Get creds st = Ret (Some e) st2 →
          Refresher_Run r (TimerFired :: evs) st = Panic NilDereference)
       ∧ (∀ evs st status st', Refresher_Run r evs st = Ret status st' →
            logged st' = logged st)).
Proof.
  intros Hn.
  assert (r_creds r = creds ∧ ∃ a, creds = Some a) as [Hr [a Ha]].
  { destruct creds as [a|]; [|discriminate]. revert Hn.
    unfold NewRefresher. unfold mbind, M_bind.
    destruct (Get (Some a) st0) as [[e|] st|]; intros [= <- <-]; eauto. }
  split; [done|]. split; [by rewrite Ha|]. split.
  - intros Hl evs. induction evs as [|[] evs IH]; intros st.
    + by eexists _, _.
    + by eexists _, _.
    + rewrite Refresher_Run_tick, Hr, Ha, Get_eq.
      destruct (sdk_Get a (world st)) as [[e|] w]; cbn [fst snd];
        [rewrite decide_False by done|]; apply IH.
  - intros Hl. split.
    + intros evs st e st2 HG.
      by rewrite Refresher_Run_tick, Hr, HG, decide_True.
    + intros evs. induction evs as [|[] evs IH]; intros st status st'.
      * by intros [= _ <-].
      * by intros [= _ <-].
      * rewrite Refresher_Run_tick.
        destruct (Get (r_creds r) st) as [[err|] st2|] eqn:HG; [| |done].
        { by rewrite decide_True. }
        intros Hrun. apply IH in Hrun. rewrite Hrun.
        by apply Get_inv in HG as (a' & _ & _ & _ & _ & Hlog & _).
Qed.

(** X16. Both constructors start from the no-op logger and a period of 55
    minutes and apply the caller's options in order: the constructed value
    is configured by the last [WithLogger] and the last [WithPeriod] given,
    and by the defaults where none is given. *)
Theorem X16_constructors_configuration (specs : list OptionSpec) :
  (∀ F st s st',
     NewSwapper (Some F) (toOption <$> specs) st = Ret (Some s, None) st' →
     logger (conf s) = default NopLogger (last (omap loggerOf specs))
     ∧ period (conf s)
       = default 3300000000000%Z (last (omap periodOf specs)))
  ∧ (∀ creds st r st',
     NewRefresher creds (toOption <$> specs) st = Ret (Some r, None) st' →
     logger (r_conf r) = default NopLogger (last (omap loggerOf specs))
     ∧ period (r_conf r)
       = default 3300000000000%Z (last (omap periodOf specs))).
Proof.
  split.
  - intros F st s st' Hn. apply NewSwapper_success in Hn as (_ & -> & _).
    apply applyOptions_specs.
  - intros creds st r st' Hn.
    assert (r_conf r = applyOptions (toOption <$> specs) defaultConfig) as ->.
    { destruct creds as [a|]; [|discriminate]. revert Hn.
      unfold NewRefresher. unfold mbind, M_bind.
      destruct (Get (Some a) st) as [[e|] st1|]; by intros [= <- <-]. }
    apply applyOptions_specs.
Qed.

End MoreProperties.

(** ** The further properties at work on the concrete world *)

(** A Refresher on the usable credentials object at 5. *)
Lemma X1_witness :
  NewRefresher (Some 5) [WithLogger (SinkLogger 2)] demo_st0
  = Ret (Some {| r_conf := applyOptions [WithLogger (SinkLogger 2)] defaultConfig;
                 r_creds := Some 5 |}, None)
        (@mkSt demo_SDK 1 ∅ 0 [CallGet 5 None] []).
Proof.
  apply (proj1 (X1_NewRefresher_outcomes 5 [WithLogger (SinkLogger 2)] demo_st0) 1).
  reflexivity.
Defined.

(** A construction that fails has logged nothing. *)
Lemma X3_witness :
  NewSwapper (Some demo_bad) [WithLogger (SinkLogger 1)] demo_st0
  = Ret (None, Some (ErrorfW "failed to create new credentials"
                             (ErrExternal "NoCredentialProviders")))
        (@mkSt demo_SDK 1 ∅ 1
           [CallNewCreds None (Some (ErrExternal "NoCredentialProviders"))] [])
  ∧ logged (@mkSt demo_SDK 1 ∅ 1
              [CallNewCreds None (Some (ErrExternal "NoCredentialProviders"))] [])
    = logged demo_st0.
Proof.
  assert (NewSwapper (Some demo_bad) [WithLogger (SinkLogger 1)] demo_st0
          = Ret (None, Some (ErrorfW "failed to create new credentials"
                                     (ErrExternal "NoCredentialProviders")))
                (@mkSt demo_SDK 1 ∅ 1
                   [CallNewCreds None (Some (ErrExternal "NoCredentialProviders"))]
                   [])) as Hn by (vm_compute; reflexivity).
  split; [exact Hn|].
  exact (proj1 (@X3_constructors_do_not_log demo_SDK) _ _ _ _ _ Hn).
Defined.

(** A refresh that succeeds, on a cache that held other credentials. *)
Lemma X4_witness :
  Swapper_refresh (demo_swapper demo_good) demo_st7
  = Ret None (@mkSt demo_SDK 2 {[ 0 := AnyCreds (Some 0) ]} 1
                [CallNewCreds (Some 0) None; CallGet 0 None] [])
  ∧ ∀ c, c ≠ cache (demo_swapper demo_good) →
         cells (@mkSt demo_SDK 2 {[ 0 := AnyCreds (Some 0) ]} 1
                  [CallNewCreds (Some 0) None; CallGet 0 None] []) !! c
         = cells demo_st7 !! c.
Proof.
  assert (Swapper_refresh (demo_swapper demo_good) demo_st7
          = Ret None (@mkSt demo_SDK 2 {[ 0 := AnyCreds (Some 0) ]} 1
                        [CallNewCreds (Some 0) None; CallGet 0 None] []))
    as Hr by (vm_compute; reflexivity).
  split; [exact Hr|].
  exact (proj2 (proj2 (X4_refresh_footprint _ _ _ _ Hr))).
Defined.

(** A failing tick, then cancellation, then a timer that is never taken. *)
Lemma X6_witness :
  Swapper_Run (demo_swapper demo_bad) ([TimerFired] ++ CtxDone :: [TimerFired])
    demo_st7
  = Ret Returned
        (@mkSt demo_SDK 1 {[ 0 := AnyCreds (Some 7) ]} 1
           [CallNewCreds None (Some (ErrExternal "NoCredentialProviders"))]
           [refreshLog (SinkLogger 1)
              (ErrorfW "failed to create new credentials"
                       (ErrExternal "NoCredentialProviders"))]).
Proof.
  apply (proj1 (@X6_Run_returns_on_cancellation demo_SDK)).
  vm_compute. reflexivity.
Defined.

(** The run of [X6_witness] returned, and cancellation was among its cases. *)
Lemma X7_witness :
  Returned = Returned ↔ CtxDone ∈ [TimerFired; CtxDone; TimerFired].
Proof.
  apply (proj1 (@X7_Run_returns_iff_cancelled demo_SDK)
               (demo_swapper demo_bad) [TimerFired; CtxDone; TimerFired]
               demo_st7 Returned
               (@mkSt demo_SDK 1 {[ 0 := AnyCreds (Some 7) ]} 1
                  [CallNewCreds None (Some (ErrExternal "NoCredentialProviders"))]
                  [refreshLog (SinkLogger 1)
                     (ErrorfW "failed to create new credentials"
                              (ErrExternal "NoCredentialProviders"))])).
  vm_compute. reflexivity.
Defined.

(** The final state of three ticks of the flaky factory and a cancellation,
    started on [demo_st7]: two refreshes succeed, the third fails. *)
Lemma demo_flaky_run :
  Swapper_Run (demo_swapper demo_flaky)
    [TimerFired; TimerFired; TimerFired; CtxDone] demo_st7
  = Ret Returned
        (@mkSt demo_SDK 5 {[ 0 := AnyCreds (Some 2) ]} 1
           [CallNewCreds (Some 0) None; CallGet 0 None;
            CallNewCreds (Some 2) None; CallGet 2 None;
            CallNewCreds None (Some (ErrExternal "RequestError"))]
           [refreshLog (SinkLogger 1)
              (ErrorfW "failed to create new credentials"
                       (ErrExternal "RequestError"))]).
Proof. vm_compute. reflexivity. Defined.

Lemma X8_witness :
  ∃ new,
    [CallNewCreds (Some 0) None; CallGet 0 None;
     CallNewCreds (Some 2) None; CallGet 2 None;
     CallNewCreds None (Some (ErrExternal "RequestError"))]
    = [] ++ new
    ∧ countCalls isNewCreds new = 3.
Proof.
  destruct (X8_Swapper_Run_fetches_and_logs _ _ _ _ _ demo_flaky_run)
    as (new & Hcalls & Hcount & _).
  exists new. split; [exact Hcalls|exact Hcount].
Defined.

Lemma X9_witness :
  ∃ new,
    [CallNewCreds (Some 0) None; CallGet 0 None;
     CallNewCreds (Some 2) None; CallGet 2 None;
     CallNewCreds None (Some (ErrExternal "RequestError"))]
    = [] ++ new
    ∧ ∀ a, lastValidated new = Some a →
           ({[ 0 := AnyCreds (Some 2) ]} : gmap nat any)
           = <[0 := AnyCreds (Some a)]> {[ 0 := AnyCreds (Some 7) ]}.
Proof.
  destruct (X9_Swapper_Run_cache_is_last_validated _ _ _ _ _ demo_flaky_run)
    as (new & Hcalls & Hlast & _).
  exists new. split; [exact Hcalls|].
  intros a Ha. exact (proj1 (Hlast a Ha)).
Defined.

(** A tick of the Refresher on expired credentials, then cancellation. *)
Lemma X10_witness :
  ∃ new,
    [CallGet 100 (Some (ErrExternal "ExpiredToken"))] = [] ++ new
    ∧ length new = 1
    ∧ [refreshLog (SinkLogger 2) (ErrExternal "ExpiredToken")]
      = [] ++ omap (refresherLogOf (SinkLogger 2)) new.
Proof.
  assert (Refresher_Run demo_refresher [TimerFired; CtxDone] demo_st0
          = Ret Returned
                (@mkSt demo_SDK 1 ∅ 0
                   [CallGet 100 (Some (ErrExternal "ExpiredToken"))]
                   [refreshLog (SinkLogger 2) (ErrExternal "ExpiredToken")]))
    as Hrun by (vm_compute; reflexivity).
  destruct (X10_Refresher_Run_footprint _ _ _ _ _ Hrun)
    as (new & Hcalls & Hlen & _ & Hlog & _).
  exists new. split; [exact Hcalls|]. split; [exact Hlen|exact Hlog].
Defined.

(** A request configured with the credentials at 42, signed while the cache
    holds the credentials at 7. *)
Lemma X11_witness :
  Fn (BuildNamedHandler "v4.SignRequestHandler"
        ([] ++ [swapOption (demo_swapper demo_good)]))
     {| Config_Credentials := Some 42 |} demo_st7
  = Ret {| Credentials := Some 7; DisableURIPathEscaping := false |} demo_st7.
Proof.
  apply (X11_cached_credentials_override "v4.SignRequestHandler"
           (demo_swapper demo_good) {| Config_Credentials := Some 42 |} []
           demo_st7 {| Credentials := Some 42; DisableURIPathEscaping := false |}
           demo_st7 7); reflexivity.
Defined.

(** Attaching the demo client, then a refresh that publishes the credentials
    at 0. *)
Lemma X12_witness :
  ∃ c' h' st',
    Swapper_Attach "v4.SignRequestHandler" (demo_swapper demo_good)
      demo_client [] demo_st7 = Ret (true, c') demo_st7
    ∧ Handlers_Sign c' !! 1 = Some h'
    ∧ Swapper_refresh (demo_swapper demo_good) demo_st7 = Ret None st'
    ∧ Fn h' {| Config_Credentials := Some 42 |} st'
      = Ret {| Credentials := Some 0; DisableURIPathEscaping := false |} st'.
Proof.
  assert (storable demo_st7 (cache (demo_swapper demo_good))) as Hs.
  { intros t Heq. vm_compute in Heq. discriminate. }
  destruct (X12_attached_client_sees_later_refresh "v4.SignRequestHandler"
              (demo_swapper demo_good) demo_good demo_client 1
              (BuildNamedHandler "v4.SignRequestHandler" []) demo_st7 0 1 2
              eq_refl eq_refl eq_refl eq_refl eq_refl Hs)
    as (c' & h' & st' & Hattach & Hi & _ & Hrefresh & Hsign).
  exists c', h', st'. split; [exact Hattach|]. split; [exact Hi|].
  split; [exact Hrefresh|exact (Hsign _)].
Defined.

(** Attaching to one Swapper and then to another. *)
Lemma X14_witness :
  Swapper_Attach "v4.SignRequestHandler" (demo_swapper demo_flaky)
    (@mkClient demo_SDK
       [ BuildNamedHandler "core.BuildContentLengthHandler" [];
         BuildNamedHandler "v4.SignRequestHandler"
           ([] ++ [swapOption (demo_swapper demo_good)]) ])
    [] demo_st0
  = Swapper_Attach "v4.SignRequestHandler" (demo_swapper demo_flaky)
      demo_client [] demo_st0.
Proof.
  apply (X14_last_Attach_wins "v4.SignRequestHandler"
           (demo_swapper demo_good) (demo_swapper demo_flaky) demo_client _
           [] [] true demo_st7).
  reflexivity.
Defined.

(** The factory that returns nil and nil, given to the constructor. *)
Lemma X13_witness :
  demo_nil (world demo_st0) = (None, None, 1)
  ∧ NewSwapper (Some demo_nil) [] demo_st0 = Panic NilDereference.
Proof.
  split; [reflexivity|].
  exact (proj1 (X13_nil_credentials_without_error_panic
                  demo_nil demo_st0 1 [] eq_refl)).
Defined.

(** A Swapper constructed with a period and then a logger. *)
Lemma X16_witness :
  logger (WithLogger (SinkLogger 1) (WithPeriod 7%Z defaultConfig))
  = SinkLogger 1
  ∧ period (WithLogger (SinkLogger 1) (WithPeriod 7%Z defaultConfig)) = 7%Z.
Proof.
  assert (NewSwapper (Some demo_good)
            (toOption <$> [SetPeriod 7%Z; SetLogger (SinkLogger 1)]) demo_st0
          = Ret (Some (@mkSwapper demo_SDK
                         (WithLogger (SinkLogger 1) (WithPeriod 7%Z defaultConfig))
                         (Some demo_good) 0), None)
                (@mkSt demo_SDK 2 {[ 0 := AnyCreds (Some 0) ]} 1
                   [CallNewCreds (Some 0) None; CallGet 0 None] []))
    as Hn by (vm_compute; reflexivity).
  exact (proj1 (X16_constructors_configuration
                  [SetPeriod 7%Z; SetLogger (SinkLogger 1)]) _ _ _ _ Hn).
Defined.

(** Two ticks of a factory that always fails, on a cache that holds
    credentials. *)
Lemma X17_witness :
  logger (conf (demo_swapper demo_bad)) ≠ NilLogger
  ∧ ∃ status st',
      Swapper_Run (demo_swapper demo_bad) [TimerFired; TimerFired] demo_st7
      = Ret status st'
      ∧ holds_creds (demo_swapper demo_bad) st'.
Proof.
  assert (logger (conf (demo_swapper demo_bad)) ≠ NilLogger) as Hl
    by discriminate.
  split; [exact Hl|].
  apply (proj1 (X17_Swapper_Run_panic_freedom (demo_swapper demo_bad) demo_bad
                  demo_st7 eq_refl
                  (ex_intro _ 7 eq_refl)
                  (fun w Heq => ltac:(discriminate Heq)))
               Hl [TimerFired; TimerFired]).
Defined.

(** A Swapper constructed with a nil logger: the factory works for the
    construction and for the first tick and fails at the second, where
    [Run] panics. *)
Example demo_Run_nil_logger :
  (x ← NewSwapper (Some demo_flaky) [WithLogger NilLogger];
   match x.1 with
   | Some s => Swapper_Run s [TimerFired; TimerFired; CtxDone]
   | None => mret Returned
   end) demo_st0 = Panic NilDereference.
Proof. reflexivity. Qed.

(** The Refresher that [NewRefresher] returns on the credentials at 5. *)
Lemma X18_witness :
  logger (r_conf {| r_conf := defaultConfig; r_creds := Some 5 |}) ≠ NilLogger
  ∧ ∃ status st',
      Refresher_Run {| r_conf := defaultConfig; r_creds := Some 5 |}
        [TimerFired; CtxDone] demo_st7
      = Ret status st'.
Proof.
  assert (NewRefresher (Some 5) [] demo_st0
          = Ret (Some {| r_conf := defaultConfig; r_creds := Some 5 |}, None)
                (@mkSt demo_SDK 1 ∅ 0 [CallGet 5 None] []))
    as Hn by (vm_compute; reflexivity).
  assert (logger (r_conf {| r_conf := defaultConfig; r_creds := Some 5 |})
          ≠ NilLogger) as Hl by discriminate.
  split; [exact Hl|].
  exact (proj1 (proj2 (proj2 (X18_Refresher_Run_panic_freedom _ _ _ _ _ Hn)))
               Hl [TimerFired; CtxDone] demo_st7).
Defined.

(** A Refresher constructed with a nil logger on credentials that expire:
    [Get] works for the construction and for two ticks and fails at the
    third, where [Run] panics. *)
Example demo_Refresher_Run_nil_logger :
  (x ← NewRefresher (Some 5) [WithLogger NilLogger];
   match x.1 with
   | Some r => Refresher_Run r [TimerFired; TimerFired; TimerFired; CtxDone]
   | None => mret Returned
   end) (@mkSt aging_SDK 0 ∅ 0 [] []) = Panic NilDereference.
Proof. reflexivity. Qed.

(** A signing that finds credentials in the cache, and one that misses. *)
Lemma X15_witness :
  swapOption (demo_swapper demo_good) demo_signer demo_st7
  = Ret {| Credentials := Some 7; DisableURIPathEscaping := true |} demo_st7
  ∧ ∃ st', swapOption (demo_swapper demo_good) demo_signer demo_stOther
           = Ret demo_signer st'
           ∧ logged st' = [swapLog (SinkLogger 1)].
Proof.
  split.
  - apply (proj1 (proj2 (X15_hook_footprint (demo_swapper demo_good)
                           demo_signer demo_st7)) 7).
    reflexivity.
  - apply (proj1 (proj2 (proj2 (X15_hook_footprint (demo_swapper demo_good)
                                  demo_signer demo_stOther)))).
    + right; left. exists 1. reflexivity.
    + discriminate.
Defined.
